(** * Super Rifas backend: the product normalisation core of [src/index.js]

    A shallow embedding of [procesarProductos], [generateProductId],
    [validateProducto] and of the pure part of the three route handlers
    ([/api/productos/:id], [/api/stats]), followed by the properties the
    specification states about them.

    Conventions of the embedding.

    - A JavaScript string is the list of its code units.  Code units are
      [ascii] values, so the development covers the strings whose code units
      lie in 0..255 (the Latin-1 range); on that range [toLowerCase], [trim],
      and the regular-expression classes [\s] and [\d] are what ECMAScript
      defines.
    - A spreadsheet cell is [undefined] (a cell missing from a short row),
      [null] or a string: the values the sheet range delivers.
    - Operations that raise a [TypeError] in JavaScript (a method call on
      [undefined] or [null]) return [Throw] in the error monad [Exc].
    - [new Date().toISOString()] reads a clock; the clock is an explicit
      argument giving the reading taken while each row is processed. *)

From Stdlib Require Import Ascii String NArith Arith Bool Lia.
From Stdlib Require Import List.
Import ListNotations.

Set Implicit Arguments.

(** ** JavaScript strings as sequences of code units *)

Module Js.

Definition jsstring := list ascii.

(** String literals of the source. *)
Definition str (s : string) : jsstring := list_ascii_of_string s.

Definition code (c : ascii) : N := N_of_ascii c.

Definition in_range (lo hi : N) (c : ascii) : bool :=
  (N.leb lo (code c) && N.leb (code c) hi)%bool.

(** ECMAScript WhiteSpace and LineTerminator code units below 256:
    TAB, LF, VT, FF, CR, SP and NBSP.  This is the class [\s] of regular
    expressions and the set removed by [String.prototype.trim]. *)
Definition is_space (c : ascii) : bool :=
  (in_range 9 13 c || N.eqb (code c) 32 || N.eqb (code c) 160)%bool.

(** The class [\d]. *)
Definition is_digit (c : ascii) : bool := in_range 48 57 c.

(** The range [a-z]. *)
Definition is_lower_az (c : ascii) : bool := in_range 97 122 c.

(** Upper-case code units that have a lower-case partner: [A-Z] and the
    Latin-1 capitals U+00C0..U+00DE except the multiplication sign U+00D7. *)
Definition is_upper (c : ascii) : bool :=
  (in_range 65 90 c
   || (in_range 192 222 c && negb (N.eqb (code c) 215)))%bool.

Definition lower_char (c : ascii) : ascii :=
  if is_upper c then ascii_of_N (code c + 32) else c.

(** [String.prototype.toLowerCase]. *)
Definition toLowerCase (s : jsstring) : jsstring := map lower_char s.

(** Canonicalisation used by a regular expression with the [i] flag when the
    pattern character is an ASCII letter: only [a-z] are folded onto [A-Z];
    no code unit at or above 128 is ever folded onto an ASCII one. *)
Definition canonicalize (c : ascii) : ascii :=
  if is_lower_az c then ascii_of_N (code c - 32) else c.

Fixpoint dropWhile (p : ascii -> bool) (s : jsstring) : jsstring :=
  match s with
  | [] => []
  | c :: s' => if p c then dropWhile p s' else s
  end.

Definition trimStart (s : jsstring) : jsstring := dropWhile is_space s.
Definition trimEnd (s : jsstring) : jsstring :=
  rev (dropWhile is_space (rev s)).

(** [String.prototype.trim]. *)
Definition trim (s : jsstring) : jsstring := trimEnd (trimStart s).

(** [s.substring(0, n)] for a non-negative integer [n]. *)
Definition substring0 (n : nat) (s : jsstring) : jsstring := firstn n s.

(** Strict equality [===] of two strings: code unit by code unit. *)
Fixpoint str_eqb (a b : jsstring) : bool :=
  match a, b with
  | [], [] => true
  | x :: a', y :: b' => (Ascii.eqb x y && str_eqb a' b')%bool
  | _, _ => false
  end.

(** *** Values found in a cell *)

Inductive JsValue : Type :=
| JUndefined
| JNull
| JString (s : jsstring).

(** ToBoolean: [undefined], [null] and the empty string are falsy. *)
Definition truthy (v : JsValue) : bool :=
  match v with
  | JString (_ :: _) => true
  | _ => false
  end.

(** ToBoolean of a string. *)
Definition truthy_str (s : jsstring) : bool :=
  match s with [] => false | _ :: _ => true end.

(** *** Exceptions *)

Inductive JsError : Type := TypeError.

Inductive Exc (A : Type) : Type :=
| Ok (a : A)
| Throw (e : JsError).
Arguments Ok {A} a.
Arguments Throw {A} e.

Definition ret {A} (a : A) : Exc A := Ok a.

Definition bind {A B} (c : Exc A) (f : A -> Exc B) : Exc B :=
  match c with
  | Ok a => f a
  | Throw e => Throw e
  end.

(** [v.toString()]: a method call, so it throws on [undefined] and [null]. *)
Definition toString (v : JsValue) : Exc jsstring :=
  match v with
  | JString s => Ok s
  | JUndefined | JNull => Throw TypeError
  end.

(** [xs.map(f)] with a callback that may throw: the rows are visited in
    order, the callback also receives the index, and the first exception
    aborts the whole call. *)
Fixpoint mapM_from {A B} (f : nat -> A -> Exc B) (i : nat) (xs : list A)
  : Exc (list B) :=
  match xs with
  | [] => Ok []
  | x :: xs' =>
      bind (f i x) (fun y =>
      bind (mapM_from f (S i) xs') (fun ys => Ok (y :: ys)))
  end.

Definition mapM {A B} (f : nat -> A -> Exc B) (xs : list A) : Exc (list B) :=
  mapM_from f 0 xs.

(** Array destructuring [const [a, b, ...] = row]: a position past the end
    of the row is [undefined]. *)
Definition element (row : list JsValue) (i : nat) : JsValue :=
  nth i row JUndefined.

End Js.

Import Js.

Declare Scope exc_scope.
Delimit Scope exc_scope with exc.
Notation "x <- c ;; k" := (bind c (fun x => k))
  (at level 61, c at next level, right associativity) : exc_scope.
Open Scope exc_scope.

(** ** A backtracking matcher for the regular expressions of the source

    The three patterns of [src/index.js] are built from single code-unit
    classes, concatenation, the greedy quantifier [+] applied to a class,
    bounded repetition [{n}] of a class and capturing groups.  The matcher
    is the continuation-passing one of the ECMAScript specification: a
    pattern is run against the remaining input with a continuation that
    matches what follows it, and a greedy quantifier gives characters back
    when the continuation fails. *)

Module Regex.

Inductive regex : Type :=
| Eps
| Cls (p : ascii -> bool)
| Plus (p : ascii -> bool)
| Cat (r1 r2 : regex)
| Grp (i : nat) (r : regex).

(** Captures, most recent first. *)
Definition captures := list (nat * jsstring).
Definition outcome := option (jsstring * captures).
Definition cont := jsstring -> captures -> outcome.

(** The part of [s] that has been consumed when [rest] remains. *)
Definition consumed (s rest : jsstring) : jsstring :=
  firstn (length s - length rest) s.

(** Greedy [p*]: take as many code units as possible, then give them back
    one at a time until the continuation succeeds. *)
Fixpoint star (p : ascii -> bool) (s : jsstring) (c : captures) (k : cont)
  : outcome :=
  match s with
  | a :: s' =>
      if p a then
        match star p s' c k with
        | Some r => Some r
        | None => k s c
        end
      else k s c
  | [] => k [] c
  end.

Fixpoint m (r : regex) (s : jsstring) (c : captures) (k : cont) : outcome :=
  match r with
  | Eps => k s c
  | Cls p =>
      match s with
      | a :: s' => if p a then k s' c else None
      | [] => None
      end
  | Plus p =>
      match s with
      | a :: s' => if p a then star p s' c k else None
      | [] => None
      end
  | Cat r1 r2 => m r1 s c (fun s1 c1 => m r2 s1 c1 k)
  | Grp i r1 => m r1 s c (fun s1 c1 => k s1 ((i, consumed s s1) :: c1))
  end.

(** [p{n}] *)
Fixpoint rep (n : nat) (p : ascii -> bool) : regex :=
  match n with
  | 0 => Eps
  | S n' => Cat (Cls p) (rep n' p)
  end.

(** A sequence of pattern terms. *)
Definition cat_all (rs : list regex) : regex := fold_right Cat Eps rs.

(** A pattern character under the [i] flag. *)
Definition chr_i (ch : string) : regex :=
  match ch with
  | String x _ => Cls (fun c => Ascii.eqb (canonicalize c) (canonicalize x))
  | EmptyString => Eps
  end.

(** One attempt at the current position. *)
Definition exec_at (r : regex) (s : jsstring) : outcome :=
  m r s [] (fun rest c => Some (rest, c)).

Record MatchResult : Type := mkMatch {
  matched : jsstring;
  groups : captures
}.

Fixpoint lookup (i : nat) (c : captures) : option jsstring :=
  match c with
  | [] => None
  | (j, v) :: c' => if Nat.eqb i j then Some v else lookup i c'
  end.

(** [result[i]] on a match array: the text of group [i], or [undefined]
    when the group did not take part in the match. *)
Definition group (r : MatchResult) (i : nat) : JsValue :=
  match lookup i (groups r) with
  | Some v => JString v
  | None => JUndefined
  end.

(** [s.match(r)] for a pattern without the [g] flag: the match at the
    smallest start index that has one, [None] standing for [null]. *)
Fixpoint search (r : regex) (s : jsstring) : option MatchResult :=
  match exec_at r s with
  | Some (rest, c) => Some (mkMatch (consumed s rest) c)
  | None =>
      match s with
      | [] => None
      | _ :: s' => search r s'
      end
  end.

(** [s.replace(r, by)] for a pattern with the [g] flag and a replacement
    text without [$]: every match, found left to right, is replaced; after
    an empty match the scan moves on by one code unit.  One unit of [fuel]
    is spent per scan position. *)
Fixpoint replace_loop (fuel : nat) (r : regex) (by_ s : jsstring) : jsstring :=
  match fuel with
  | 0 => s
  | S fuel' =>
      let step :=
        match s with
        | [] => []
        | a :: s' => a :: replace_loop fuel' r by_ s'
        end in
      match exec_at r s with
      | Some (rest, _) =>
          if Nat.ltb (length rest) (length s)
          then by_ ++ replace_loop fuel' r by_ rest
          else by_ ++ step
      | None => step
      end
  end.

Definition replace_all (r : regex) (by_ s : jsstring) : jsstring :=
  replace_loop (S (length s)) r by_ s.

End Regex.

Import Regex.

(** ** The functions of [src/index.js] *)

(** The normalised product built at lines 94-104. *)
Record Producto : Type := mkProducto {
  nombre : jsstring;
  vigenciaCompleta : jsstring;
  fechaInicio : JsValue;
  fechaFin : JsValue;
  compraMinima : jsstring;
  imagen : jsstring;
  id : jsstring;
  fechaActualizacion : jsstring
}.

(** [/[^a-z0-9\s]/g] *)
Definition re_no_slug : regex :=
  Cls (fun c => negb (is_lower_az c || is_digit c || is_space c)).

(** [/\s+/g] *)
Definition re_spaces : regex := Plus is_space.

(** [generateProductId], lines 108-113. *)
Definition generateProductId (nombre : jsstring) : jsstring :=
  substring0 50
    (replace_all re_spaces (str "-")
       (replace_all re_no_slug (str "")
          (toLowerCase nombre))).

(** [\d{2}\/\d{2}\/\d{4}] *)
Definition re_fecha : regex :=
  cat_all [rep 2 is_digit; chr_i "/"; rep 2 is_digit; chr_i "/"; rep 4 is_digit].

(** [/del\s+(\d{2}\/\d{2}\/\d{4})\s+al\s+(\d{2}\/\d{2}\/\d{4})/i] *)
Definition re_vigencia : regex :=
  cat_all [chr_i "d"; chr_i "e"; chr_i "l"; Plus is_space; Grp 1 re_fecha;
       Plus is_space; chr_i "a"; chr_i "l"; Plus is_space; Grp 2 re_fecha].

(** The callback of [rows.map], lines 73-105: [None] is the [null] returned
    for a skipped row.  [now] is the clock reading for this row. *)
Definition procesarFila (now : jsstring) (row : list JsValue)
  : Exc (option Producto) :=
  let nombreProducto := element row 0 in
  let vigencia := element row 1 in
  let compraMinima := element row 2 in
  let imagen := element row 3 in
  vacia <- (if negb (truthy nombreProducto) then ret true
            else s <- toString nombreProducto ;;
                 ret (str_eqb (trim s) (str ""))) ;;
  if (vacia : bool) then ret None
  else
    fechas <- (if truthy vigencia then
                 vigenciaStr <- toString vigencia ;;
                 match search re_vigencia vigenciaStr with
                 | Some fechaMatch =>
                     ret (group fechaMatch 1, group fechaMatch 2)
                 | None => ret (JString (str ""), JString (str ""))
                 end
               else ret (JString (str ""), JString (str ""))) ;;
    nombre_ <- (s <- toString nombreProducto ;; ret (trim s)) ;;
    vigenciaCompleta_ <- (if truthy vigencia then toString vigencia
                          else ret (str "")) ;;
    compraMinima_ <- (if truthy compraMinima then toString compraMinima
                      else ret (str "")) ;;
    imagen_ <- (if truthy imagen then s <- toString imagen ;; ret (trim s)
                else ret (str "")) ;;
    id_ <- (s <- toString nombreProducto ;; ret (generateProductId s)) ;;
    ret (Some (mkProducto nombre_ vigenciaCompleta_ (fst fechas) (snd fechas)
                 compraMinima_ imagen_ id_ now)).

(** [xs.filter(producto => producto !== null)] *)
Fixpoint filter_not_null {A} (xs : list (option A)) : list A :=
  match xs with
  | [] => []
  | Some x :: xs' => x :: filter_not_null xs'
  | None :: xs' => filter_not_null xs'
  end.

(** [procesarProductos], lines 65-106.  [rawData] is [None] when
    [response.data.values] is absent; [clock i] is the time read while the
    [i]-th data row is processed. *)
Definition procesarProductos (clock : nat -> jsstring)
  (rawData : option (list (list JsValue))) : Exc (list Producto) :=
  match rawData with
  | None => ret []
  | Some table =>
      if Nat.leb (length table) 1 then ret []
      else
        let rows := skipn 1 table in
        mapped <- mapM (fun i row => procesarFila (clock i) row) rows ;;
        ret (filter_not_null mapped)
  end.

(** The result of [validateProducto]. *)
Record Validation : Type := mkValidation {
  isValid : bool;
  errors : list jsstring
}.

Definition msg_nombre : jsstring := str "Nombre requerido".
Definition msg_imagen : jsstring := str "Imagen requerida".
(** 'Compra mínima requerida': the accented letter is the code unit 237. *)
Definition msg_compra : jsstring :=
  str "Compra m" ++ ["237"%char] ++ str "nima requerida".

(** [errors.push(x)] *)
Definition push {A} (xs : list A) (x : A) : list A := xs ++ [x].

(** [validateProducto], lines 115-126. *)
Definition validateProducto (producto : Producto) : Validation :=
  let errors := [] in
  let errors := if negb (truthy_str (nombre producto))
                then push errors msg_nombre else errors in
  let errors := if negb (truthy_str (imagen producto))
                then push errors msg_imagen else errors in
  let errors := if negb (truthy_str (compraMinima producto))
                then push errors msg_compra else errors in
  mkValidation (Nat.eqb (length errors) 0) errors.

(** The [stats] object of the [/api/stats] response, lines 250-260, without
    its time stamp. *)
Record Stats : Type := mkStats {
  totalProductos : nat;
  productosActivos : nat;
  conImagen : nat;
  sinImagen : nat;
  conVigencia : nat
}.

Definition stats (productos : list Producto) : Stats :=
  mkStats
    (length productos)
    (length productos)
    (length (filter (fun p => truthy_str (imagen p)) productos))
    (length (filter (fun p => negb (truthy_str (imagen p))) productos))
    (length (filter (fun p => truthy_str (vigenciaCompleta p)) productos)).

(** What a handler answers once the sheet has been fetched. *)
Inductive Response (A : Type) : Type :=
| Status200 (body : A)
| Status404
| Status500.
Arguments Status200 {A} body.
Arguments Status404 {A}.
Arguments Status500 {A}.

(** [GET /api/productos/:id], lines 213-226; an exception raised inside the
    [try] block is answered with status 500 (lines 228-234). *)
Definition getProductoPorId (clock : nat -> jsstring)
  (values : option (list (list JsValue))) (id_ : jsstring)
  : Response Producto :=
  match procesarProductos clock values with
  | Throw _ => Status500
  | Ok productos =>
      match find (fun p => str_eqb (id p) id_) productos with
      | Some producto => Status200 producto
      | None => Status404
      end
  end.

(** [GET /api/stats], lines 246-261. *)
Definition getStats (clock : nat -> jsstring)
  (values : option (list (list JsValue))) : Response Stats :=
  match procesarProductos clock values with
  | Throw _ => Status500
  | Ok productos => Status200 (stats productos)
  end.

(** ** Vocabulary of the specification *)

(** The text of a cell, a missing cell reading as the empty text. *)
Definition texto (v : JsValue) : jsstring :=
  match v with
  | JString s => s
  | JUndefined | JNull => []
  end.

(** The data rows of a raw table: everything after the header row. *)
Definition filas (rawData : option (list (list JsValue)))
  : list (list JsValue) :=
  match rawData with
  | Some (_ :: rows) => rows
  | _ => []
  end.

(** A row whose name cell is present and not blank once trimmed. *)
Definition fila_con_nombre (row : list JsValue) : bool :=
  match trim (texto (element row 0)) with
  | [] => false
  | _ :: _ => true
  end.

(** The characters an identifier may contain: [a-z], [0-9] and the hyphen. *)
Definition slug_char (c : ascii) : bool :=
  (is_lower_az c || is_digit c || Ascii.eqb c "-")%bool.

(** The characters the identifier generator keeps before hyphenation. *)
Definition slug_keep (c : ascii) : bool :=
  (is_lower_az c || is_digit c || is_space c)%bool.

(** Every maximal run of white space becomes one hyphen; [en_racha] tells
    whether the previous code unit already belonged to the current run. *)
Fixpoint colapsar (en_racha : bool) (s : jsstring) : jsstring :=
  match s with
  | [] => []
  | c :: s' =>
      if is_space c then
        if en_racha then colapsar true s' else "-"%char :: colapsar true s'
      else c :: colapsar false s'
  end.

(** The identifier generator in the words of the specification: lower-case,
    drop what is not a lower-case letter, a digit or white space, turn each
    white-space run into a hyphen, keep the first 50 code units. *)
Definition generateId_spec (name : jsstring) : jsstring :=
  firstn 50 (colapsar false (filter slug_keep (toLowerCase name))).

(** The number of elements satisfying a test. *)
Fixpoint contar {A} (f : A -> bool) (xs : list A) : nat :=
  match xs with
  | [] => 0
  | x :: xs' => (if f x then 1 else 0) + contar f xs'
  end.

(** A non-empty run of white space. *)
Definition espacios (w : jsstring) : Prop :=
  w <> [] /\ Forall (fun c => is_space c = true) w.

(** Text of the shape DD/MM/YYYY: ten code units, digits around two
    slashes. *)
Definition es_fecha (d : jsstring) : bool :=
  match d with
  | [d1; d2; s1; m1; m2; s2; y1; y2; y3; y4] =>
      (is_digit d1 && is_digit d2 && Ascii.eqb s1 "/"
       && is_digit m1 && is_digit m2 && Ascii.eqb s2 "/"
       && is_digit y1 && is_digit y2 && is_digit y3 && is_digit y4)%bool
  | _ => false
  end.

(** [c] is the letter written [lo] in lower case and [up] in upper case. *)
Definition letra (lo up c : ascii) : Prop := c = lo \/ c = up.

(** [t] starts with "del <d1> al <d2>" in any letter case, the words and
    dates separated by white space. *)
Definition vigencia_en_cabeza (t d1 d2 : jsstring) : Prop :=
  exists x1 x2 x3 w1 w2 y1 y2 w3 resto,
    t = [x1; x2; x3] ++ w1 ++ d1 ++ w2 ++ [y1; y2] ++ w3 ++ d2 ++ resto /\
    letra "d" "D" x1 /\ letra "e" "E" x2 /\ letra "l" "L" x3 /\
    espacios w1 /\ es_fecha d1 = true /\ espacios w2 /\
    letra "a" "A" y1 /\ letra "l" "L" y2 /\
    espacios w3 /\ es_fecha d2 = true.

(** The pattern occurs somewhere in [s]. *)
Definition contiene_vigencia (s : jsstring) : Prop :=
  exists pre t d1 d2, s = pre ++ t /\ vigencia_en_cabeza t d1 d2.

(** [d1] and [d2] are the dates of the leftmost occurrence of the pattern
    in [s]. *)
Definition primera_vigencia (s d1 d2 : jsstring) : Prop :=
  exists pre t,
    s = pre ++ t /\ vigencia_en_cabeza t d1 d2 /\
    forall pre1 pre2 e1 e2,
      pre = pre1 ++ pre2 -> pre2 <> [] ->
      ~ vigencia_en_cabeza (pre2 ++ t) e1 e2.

(** ** Closed forms used in the proofs *)

(** A deterministic reading of [re_vigencia] at the head of the input:
    the two dates and what follows the match. *)
Definition tomar (p : ascii -> bool) (s : jsstring) : option jsstring :=
  match s with
  | a :: s' => if p a then Some s' else None
  | [] => None
  end.

Definition tomar_espacios (s : jsstring) : option jsstring :=
  match s with
  | a :: s' => if is_space a then Some (dropWhile is_space s') else None
  | [] => None
  end.

Definition tomar_fecha (s : jsstring) : option (jsstring * jsstring) :=
  if es_fecha (firstn 10 s) then Some (firstn 10 s, skipn 10 s) else None.

Definition es_letra (x : ascii) (c : ascii) : bool :=
  Ascii.eqb (canonicalize c) (canonicalize x).

Definition obind {A B} (o : option A) (f : A -> option B) : option B :=
  match o with
  | Some a => f a
  | None => None
  end.

Definition vigencia_aqui (t : jsstring)
  : option (jsstring * jsstring * jsstring) :=
  obind (tomar (es_letra "d") t) (fun t1 =>
  obind (tomar (es_letra "e") t1) (fun t2 =>
  obind (tomar (es_letra "l") t2) (fun t3 =>
  obind (tomar_espacios t3) (fun t4 =>
  obind (tomar_fecha t4) (fun '(d1, t5) =>
  obind (tomar_espacios t5) (fun t6 =>
  obind (tomar (es_letra "a") t6) (fun t7 =>
  obind (tomar (es_letra "l") t7) (fun t8 =>
  obind (tomar_espacios t8) (fun t9 =>
  obind (tomar_fecha t9) (fun '(d2, t10) =>
  Some (d1, d2, t10))))))))))).

(** The dates [procesarFila] stores for a validity text. *)
Definition fechas_de (s : jsstring) : JsValue * JsValue :=
  match search re_vigencia s with
  | Some fechaMatch => (group fechaMatch 1, group fechaMatch 2)
  | None => (JString [], JString [])
  end.

(** The record [procesarFila] builds for a row that is kept. *)
Definition producto_de (now : jsstring) (row : list JsValue) : Producto :=
  mkProducto
    (trim (texto (element row 0)))
    (texto (element row 1))
    (fst (fechas_de (texto (element row 1))))
    (snd (fechas_de (texto (element row 1))))
    (texto (element row 2))
    (trim (texto (element row 3)))
    (generateProductId (texto (element row 0)))
    now.

(** The products of the rows that are kept, the [i]-th row being stamped
    with [clock i]. *)
Fixpoint productos_desde (clock : nat -> jsstring) (i : nat)
  (rows : list (list JsValue)) : list Producto :=
  match rows with
  | [] => []
  | row :: rows' =>
      if fila_con_nombre row
      then producto_de (clock i) row :: productos_desde clock (S i) rows'
      else productos_desde clock (S i) rows'
  end.

(** Scenario A of the specification. *)
Definition cabecera : list JsValue :=
  [JString (str "Name"); JString (str "Validity"); JString (str "Min");
   JString (str "Img")].

Definition fila_A : list JsValue :=
  [JString (str "Widget A"); JString (str "del 01/01/2024 al 31/01/2024");
   JString (str "$100"); JString (str "img1.png")].

Definition tabla_A : option (list (list JsValue)) := Some [cabecera; fila_A].

Definition producto_A (now : jsstring) : Producto :=
  mkProducto (str "Widget A") (str "del 01/01/2024 al 31/01/2024")
    (JString (str "01/01/2024")) (JString (str "31/01/2024"))
    (str "$100") (str "img1.png") (str "widget-a") now.

(** The reasons [validateProducto] reports for an empty field. *)
Definition falta (campo msg : jsstring) : list jsstring :=
  match campo with
  | [] => [msg]
  | _ :: _ => []
  end.

Definition vacio (s : jsstring) : bool :=
  match s with
  | [] => true
  | _ :: _ => false
  end.

(** Cells that are missing or unreadable leave empty fields on the product
    of their row. *)
Definition degrada (row : list JsValue) (p : Producto) : Prop :=
  (truthy (element row 1) = false ->
   vigenciaCompleta p = [] /\
   fechaInicio p = JString [] /\ fechaFin p = JString []) /\
  (~ contiene_vigencia (texto (element row 1)) ->
   fechaInicio p = JString [] /\ fechaFin p = JString []) /\
  (truthy (element row 2) = false -> compraMinima p = []) /\
  (truthy (element row 3) = false -> imagen p = []).

(** The two dates of a product are both empty or both of the shape
    DD/MM/YYYY. *)
Definition fechas_coherentes (p : Producto) : Prop :=
  (fechaInicio p = JString [] /\ fechaFin p = JString []) \/
  (exists d1 d2,
     fechaInicio p = JString d1 /\ fechaFin p = JString d2 /\
     es_fecha d1 = true /\ es_fecha d2 = true).

(** How the validity fields of a product follow from the validity cell of
    its row. *)
Definition fechas_extraidas (row : list JsValue) (p : Producto) : Prop :=
  vigenciaCompleta p = texto (element row 1) /\
  (forall d1 d2,
     primera_vigencia (texto (element row 1)) d1 d2 ->
     fechaInicio p = JString d1 /\ fechaFin p = JString d2) /\
  (contiene_vigencia (texto (element row 1)) ->
   exists d1 d2, primera_vigencia (texto (element row 1)) d1 d2) /\
  (~ contiene_vigencia (texto (element row 1)) ->
   fechaInicio p = JString [] /\ fechaFin p = JString []) /\
  (truthy (element row 1) = false ->
   vigenciaCompleta p = [] /\
   fechaInicio p = JString [] /\ fechaFin p = JString []) /\
  fechas_coherentes p.

(** A table whose only data row has a name cell with a leading blank. *)
Definition tabla_blanco : option (list (list JsValue)) :=
  Some [cabecera; [JString (str " A")]].

(** Scenarios B and C of the specification. *)
Definition tabla_B : option (list (list JsValue)) :=
  Some [cabecera;
        [JString (str ""); JString (str "no vigencia"); JString (str "");
         JString (str "")]].

Definition tabla_C : option (list (list JsValue)) :=
  Some [cabecera;
        [JString (str "Gadget B"); JString (str "texto libre");
         JString (str ""); JString (str "")]].

Definition producto_C (now : jsstring) : Producto :=
  mkProducto (str "Gadget B") (str "texto libre") (JString []) (JString [])
    [] [] (str "gadget-b") now.

(** ** The credentials and the routes of [src/index.js] *)

Definition barra : ascii := "092"%char.
Definition salto : ascii := "010"%char.

(** [/\\n/g]: a backslash followed by the letter n. *)
Definition re_barra_n : regex :=
  cat_all [Cls (Ascii.eqb barra); Cls (Ascii.eqb "n")].

(** [process.env.GOOGLE_PRIVATE_KEY.replace(/\\n/g, '\n')], line 45.  The
    variable is a string, or [undefined] when it is not set, and [replace]
    is a method call. *)
Definition private_key (GOOGLE_PRIVATE_KEY : JsValue) : Exc jsstring :=
  match GOOGLE_PRIVATE_KEY with
  | JString s => Ok (replace_all re_barra_n [salto] s)
  | JUndefined | JNull => Throw TypeError
  end.

(** The client is known by the private key it was built with; the other
    credentials are handed over as they are. *)
Record SheetsClient : Type := mkClient {
  client_private_key : jsstring
}.

(** [getGoogleSheetsClient], lines 38-62: the [catch] block logs the error
    and throws it again. *)
Definition getGoogleSheetsClient (GOOGLE_PRIVATE_KEY : JsValue)
  : Exc SheetsClient :=
  match (key <- private_key GOOGLE_PRIVATE_KEY ;; ret (mkClient key)) with
  | Ok client => Ok client
  | Throw error => Throw error
  end.

(** [response.data.values] after [await sheets.spreadsheets.values.get]:
    the outer [None] is a rejected promise, the inner one a response
    without [values]. *)
Definition Fetch : Type := SheetsClient -> option (option (list (list JsValue))).

(** The body of a successful [/api/productos] response, lines 176-187,
    without its time stamp and the two sheet constants. *)
Record ListaBody : Type := mkLista {
  productos : list Producto;
  total : nat;
  productosValidos : nat;
  productosInvalidos : nat
}.

(** [GET /api/productos], lines 141-200. *)
Definition rutaProductos (clock : nat -> jsstring)
  (GOOGLE_PRIVATE_KEY : JsValue) (get : Fetch) : Response ListaBody :=
  match getGoogleSheetsClient GOOGLE_PRIVATE_KEY with
  | Throw _ => Status500
  | Ok sheets =>
      match get sheets with
      | None => Status500
      | Some rawData =>
          match rawData with
          | None => Status404
          | Some _ =>
              match procesarProductos clock rawData with
              | Throw _ => Status500
              | Ok ps =>
                  let invalidos :=
                    filter (fun p => negb (isValid (validateProducto p))) ps in
                  Status200
                    (mkLista ps (length ps)
                       (length
                          (filter (fun p => isValid (validateProducto p)) ps))
                       (length invalidos))
              end
          end
      end
  end.

(** [GET /api/productos/:id], lines 203-235. *)
Definition rutaProductoPorId (clock : nat -> jsstring)
  (GOOGLE_PRIVATE_KEY : JsValue) (get : Fetch) (id_ : jsstring)
  : Response Producto :=
  match getGoogleSheetsClient GOOGLE_PRIVATE_KEY with
  | Throw _ => Status500
  | Ok sheets =>
      match get sheets with
      | None => Status500
      | Some values => getProductoPorId clock values id_
      end
  end.

(** [GET /api/stats], lines 238-270. *)
Definition rutaStats (clock : nat -> jsstring)
  (GOOGLE_PRIVATE_KEY : JsValue) (get : Fetch) : Response Stats :=
  match getGoogleSheetsClient GOOGLE_PRIVATE_KEY with
  | Throw _ => Status500
  | Ok sheets =>
      match get sheets with
      | None => Status500
      | Some values => getStats clock values
      end
  end.

(** ** Further vocabulary *)

(** [x] immediately followed by [y] somewhere in [s]. *)
Definition par_en (x y : ascii) (s : jsstring) : Prop :=
  exists pre post, s = pre ++ x :: y :: post.

Fixpoint tiene_par (x y : ascii) (s : jsstring) : bool :=
  match s with
  | [] => false
  | a :: s' =>
      match s' with
      | [] => false
      | b :: _ => ((Ascii.eqb a x && Ascii.eqb b y) || tiene_par x y s')%bool
      end
  end.

(** Every backslash-n pair, read left to right, becomes a line feed. *)
Fixpoint desescapar (s : jsstring) : jsstring :=
  match s with
  | [] => []
  | a :: s1 =>
      match s1 with
      | [] => [a]
      | b :: s2 =>
          if (Ascii.eqb barra a && Ascii.eqb "n" b)%bool
          then salto :: desescapar s2
          else a :: desescapar s1
      end
  end.

(** No white space at either end. *)
Definition recortado (s : jsstring) : Prop :=
  (forall c s', s = c :: s' -> is_space c = false) /\
  (forall c s', s = s' ++ [c] -> is_space c = false).

Definition tiene_fechas (p : Producto) : bool :=
  match fechaInicio p with
  | JString (_ :: _) => true
  | _ => false
  end.

(** A product that lacks its image or its minimum purchase. *)
Definition incompleto (p : Producto) : bool :=
  (vacio (imagen p) || vacio (compraMinima p))%bool.

Definition sin_guion (c : ascii) : bool := negb (Ascii.eqb c "-").

(** A fetch that always delivers the same answer. *)
Definition entrega (r : option (option (list (list JsValue)))) : Fetch :=
  fun _ => r.


(** * Properties *)

(** ** Code units *)

Ltac por_casos c :=
  destruct c as [[] [] [] [] [] [] [] []]; vm_compute; intros;
  try reflexivity; try discriminate.

Lemma digit_not_space c : is_digit c = true -> is_space c = false.
Proof. por_casos c. Qed.

Lemma es_letra_d c :
  es_letra "d" c = (Ascii.eqb c "d" || Ascii.eqb c "D")%bool.
Proof. por_casos c. Qed.

Lemma es_letra_e c :
  es_letra "e" c = (Ascii.eqb c "e" || Ascii.eqb c "E")%bool.
Proof. por_casos c. Qed.

Lemma es_letra_l c :
  es_letra "l" c = (Ascii.eqb c "l" || Ascii.eqb c "L")%bool.
Proof. por_casos c. Qed.

Lemma es_letra_a c :
  es_letra "a" c = (Ascii.eqb c "a" || Ascii.eqb c "A")%bool.
Proof. por_casos c. Qed.

Lemma es_letra_a_not_space c : es_letra "a" c = true -> is_space c = false.
Proof. por_casos c. Qed.

Lemma slug_keep_not_space c :
  slug_keep c = true -> is_space c = false -> slug_char c = true.
Proof. por_casos c. Qed.

(** ** Strings *)

Lemma str_eqb_eq a b : str_eqb a b = true <-> a = b.
Proof.
  revert b. induction a as [|x a IH]; intros [|y b]; simpl;
    try (split; [discriminate | discriminate]); [tauto|].
  rewrite andb_true_iff, Ascii.eqb_eq, IH.
  split; [intros [-> ->]; reflexivity | intros H; inversion H; auto].
Qed.

Lemma str_eqb_neq a b : a <> b -> str_eqb a b = false.
Proof.
  intros H. destruct (str_eqb a b) eqn:E; [|reflexivity].
  apply str_eqb_eq in E. contradiction.
Qed.

Lemma dropWhile_length p s : length (dropWhile p s) <= length s.
Proof.
  induction s as [|a s IH]; simpl; [lia|].
  destruct (p a); simpl; lia.
Qed.

Lemma dropWhile_run p w s :
  Forall (fun c => p c = true) w -> dropWhile p (w ++ s) = dropWhile p s.
Proof.
  induction 1 as [|a w Ha _ IH]; simpl; [reflexivity|].
  rewrite Ha. exact IH.
Qed.

Lemma dropWhile_stop p a s : p a = false -> dropWhile p (a :: s) = a :: s.
Proof. intros H. simpl. rewrite H. reflexivity. Qed.

Lemma dropWhile_split p s :
  exists w, s = w ++ dropWhile p s /\ Forall (fun c => p c = true) w.
Proof.
  induction s as [|a s [w [Hs Hw]]]; simpl.
  - exists []. split; [reflexivity | constructor].
  - destruct (p a) eqn:E.
    + exists (a :: w). split; [simpl; congruence | constructor; assumption].
    + exists []. split; [reflexivity | constructor].
Qed.

Lemma trim_espacios w : Forall (fun c => is_space c = true) w -> trim w = [].
Proof.
  intros H. unfold trim, trimEnd, trimStart.
  rewrite <- (app_nil_r w), dropWhile_run by assumption. reflexivity.
Qed.

(** ** The matcher on the patterns of the source *)

Lemma star_total p s c :
  star p s c (fun rest c' => Some (rest, c')) = Some (dropWhile p s, c).
Proof.
  induction s as [|a s IH]; simpl; [reflexivity|].
  destruct (p a); [rewrite IH|]; reflexivity.
Qed.

(** When what follows [p+] cannot start with a code unit of [p], giving
    characters back never helps: the quantifier takes the whole run. *)
Lemma star_det p s c (k : cont) :
  (forall a s' c', p a = true -> k (a :: s') c' = None) ->
  star p s c k = k (dropWhile p s) c.
Proof.
  intros Hk. induction s as [|a s IH]; simpl; [reflexivity|].
  destruct (p a) eqn:E; [|reflexivity].
  rewrite IH. destruct (k (dropWhile p s) c) eqn:K; [reflexivity|].
  apply Hk. exact E.
Qed.

Lemma exec_at_Cls p s :
  exec_at (Cls p) s =
  match s with
  | a :: s' => if p a then Some (s', []) else None
  | [] => None
  end.
Proof. reflexivity. Qed.

Lemma exec_at_Plus p s :
  exec_at (Plus p) s =
  match s with
  | a :: s' => if p a then Some (dropWhile p s', []) else None
  | [] => None
  end.
Proof.
  destruct s as [|a s]; [reflexivity|].
  unfold exec_at. simpl. destruct (p a); [apply star_total | reflexivity].
Qed.

(** Replacing every match of a one-character class by nothing filters the
    string. *)
Lemma replace_loop_Cls p fuel s :
  length s < fuel ->
  replace_loop fuel (Cls p) [] s = filter (fun c => negb (p c)) s.
Proof.
  revert s. induction fuel as [|fuel IH]; intros s Hlen; [lia|].
  destruct s as [|a s]; [reflexivity|].
  simpl in Hlen. cbn [replace_loop]. rewrite exec_at_Cls. simpl filter.
  destruct (p a); simpl negb; cbv iota.
  - assert (Nat.ltb (length s) (length (a :: s)) = true) as ->
        by (apply Nat.ltb_lt; simpl; lia).
    simpl. apply IH. lia.
  - rewrite IH by lia. reflexivity.
Qed.

Lemma colapsar_racha s :
  colapsar true s = colapsar false (dropWhile is_space s).
Proof.
  induction s as [|a s IH]; simpl; [reflexivity|].
  destruct (is_space a) eqn:E; [exact IH|].
  simpl. rewrite E. reflexivity.
Qed.

(** Replacing every match of [\s+] by a hyphen turns each maximal run of
    white space into one hyphen. *)
Lemma replace_loop_spaces fuel s :
  length s < fuel ->
  replace_loop fuel re_spaces (str "-") s = colapsar false s.
Proof.
  revert s. induction fuel as [|fuel IH]; intros s Hlen; [lia|].
  destruct s as [|a s]; [reflexivity|].
  simpl in Hlen. cbn [replace_loop]. unfold re_spaces.
  rewrite exec_at_Plus. simpl colapsar.
  destruct (is_space a).
  - pose proof (dropWhile_length is_space s) as Hd.
    assert (Nat.ltb (length (dropWhile is_space s)) (length (a :: s)) = true)
      as -> by (apply Nat.ltb_lt; simpl; lia).
    rewrite IH by lia. rewrite colapsar_racha. reflexivity.
  - rewrite IH by lia. reflexivity.
Qed.

Lemma filter_ext_bool {A} (f g : A -> bool) xs :
  (forall x, f x = g x) -> filter f xs = filter g xs.
Proof.
  intros H. induction xs as [|x xs IH]; simpl; [reflexivity|].
  rewrite H, IH. reflexivity.
Qed.

Lemma generateProductId_closed s :
  generateProductId s = generateId_spec s.
Proof.
  unfold generateProductId, generateId_spec, substring0, replace_all.
  unfold re_no_slug. change (str "") with (@nil ascii).
  rewrite replace_loop_Cls by lia.
  rewrite replace_loop_spaces by lia.
  f_equal. f_equal. apply filter_ext_bool. intros c. unfold slug_keep.
  apply negb_involutive.
Qed.

Lemma colapsar_slug b s :
  Forall (fun c => slug_keep c = true) s ->
  Forall (fun c => slug_char c = true) (colapsar b s).
Proof.
  intros H. revert b. induction H as [|a s Ha _ IH]; intros b; simpl;
    [constructor|].
  destruct (is_space a) eqn:E.
  - destruct b; [apply IH | constructor; [reflexivity | apply IH]].
  - constructor; [apply slug_keep_not_space; assumption | apply IH].
Qed.

Lemma Forall_firstn {A} (P : A -> Prop) n xs :
  Forall P xs -> Forall P (firstn n xs).
Proof.
  intros H. revert n. induction H as [|x xs Hx _ IH]; intros [|n]; simpl;
    constructor; auto.
Qed.

Lemma generateProductId_slug s :
  Forall (fun c => slug_char c = true) (generateProductId s).
Proof.
  rewrite generateProductId_closed. unfold generateId_spec.
  apply Forall_firstn, colapsar_slug.
  apply Forall_forall. intros c Hc. apply filter_In in Hc. tauto.
Qed.

Lemma generateProductId_length s : length (generateProductId s) <= 50.
Proof.
  unfold generateProductId, substring0. apply firstn_le_length.
Qed.

(** *** The validity pattern, read deterministically *)

Lemma m_Cat r1 r2 s c k :
  m (Cat r1 r2) s c k = m r1 s c (fun s1 c1 => m r2 s1 c1 k).
Proof. reflexivity. Qed.

Lemma m_Cls p s c k :
  m (Cls p) s c k =
  match tomar p s with Some s' => k s' c | None => None end.
Proof. destruct s as [|a s]; simpl; [|destruct (p a)]; reflexivity. Qed.

Lemma m_Plus_det s c (k : cont) :
  (forall a s' c', is_space a = true -> k (a :: s') c' = None) ->
  m (Plus is_space) s c k =
  match tomar_espacios s with Some s' => k s' c | None => None end.
Proof.
  intros Hk. destruct s as [|a s]; simpl; [reflexivity|].
  destruct (is_space a); [apply star_det; exact Hk | reflexivity].
Qed.

Lemma barra_i c :
  Ascii.eqb (canonicalize c) (canonicalize "/") = Ascii.eqb c "/".
Proof. por_casos c. Qed.

Lemma m_fecha s c k :
  m re_fecha s c k =
  match tomar_fecha s with Some (_, s') => k s' c | None => None end.
Proof.
  unfold tomar_fecha, re_fecha.
  cbn [cat_all fold_right rep chr_i m].
  repeat (destruct s as [|? s];
          [cbn; repeat (match goal with
                        | |- context [if ?b then _ else _] => destruct b
                        end); reflexivity|]).
  cbn. rewrite !barra_i.
  repeat (match goal with
          | |- context [is_digit ?a] => destruct (is_digit a); cbn;
                                        try reflexivity
          | |- context [Ascii.eqb ?a ?b] => destruct (Ascii.eqb a b); cbn;
                                            try reflexivity
          end).
Qed.

Lemma es_fecha_length d : es_fecha d = true -> length d = 10.
Proof.
  do 10 (destruct d as [|? d]; [discriminate|]).
  destruct d; [reflexivity | discriminate].
Qed.

Lemma consumed_fecha s :
  es_fecha (firstn 10 s) = true -> consumed s (skipn 10 s) = firstn 10 s.
Proof.
  intros H. apply es_fecha_length in H.
  assert (10 <= length s) as Hs.
  { rewrite length_firstn in H. lia. }
  unfold consumed. rewrite length_skipn. f_equal. lia.
Qed.

Lemma m_Grp_fecha i s c k :
  m (Grp i re_fecha) s c k =
  match tomar_fecha s with
  | Some (d, s') => k s' ((i, d) :: c)
  | None => None
  end.
Proof.
  cbn [m]. rewrite m_fecha. unfold tomar_fecha.
  destruct (es_fecha (firstn 10 s)) eqn:E; [|reflexivity].
  rewrite consumed_fecha by exact E. reflexivity.
Qed.

Lemma tomar_fecha_space a s : is_space a = true -> tomar_fecha (a :: s) = None.
Proof.
  intros Ha. unfold tomar_fecha.
  destruct (es_fecha (firstn 10 (a :: s))) eqn:E; [|reflexivity].
  exfalso.
  assert (is_digit a = true) as Hd.
  { revert E. simpl firstn.
    do 9 (destruct s as [|? s]; [discriminate|]).
    simpl. destruct (is_digit a); [reflexivity | discriminate]. }
  apply digit_not_space in Hd. congruence.
Qed.

Lemma tomar_a_space a s :
  is_space a = true -> tomar (es_letra "a") (a :: s) = None.
Proof.
  intros Ha. simpl. destruct (es_letra "a" a) eqn:E; [|reflexivity].
  apply es_letra_a_not_space in E. congruence.
Qed.

(** One attempt of the validity pattern is the deterministic reading. *)
Lemma exec_at_vigencia t :
  exec_at re_vigencia t =
  match vigencia_aqui t with
  | Some (d1, d2, rest) => Some (rest, [(2, d2); (1, d1)])
  | None => None
  end.
Proof.
  unfold exec_at, re_vigencia, vigencia_aqui.
  cbn [cat_all fold_right chr_i].
  change (fun c => Ascii.eqb (canonicalize c) (canonicalize ?x))
    with (es_letra x).
  rewrite m_Cat, m_Cls.
  destruct (tomar (es_letra "d") t) as [t1|]; [cbn [obind]|reflexivity].
  rewrite m_Cat, m_Cls.
  destruct (tomar (es_letra "e") t1) as [t2|]; [cbn [obind]|reflexivity].
  rewrite m_Cat, m_Cls.
  destruct (tomar (es_letra "l") t2) as [t3|]; [cbn [obind]|reflexivity].
  rewrite m_Cat, m_Plus_det.
  2:{ intros a s' c' Ha. rewrite m_Cat, m_Grp_fecha, tomar_fecha_space by
        exact Ha. reflexivity. }
  destruct (tomar_espacios t3) as [t4|]; [cbn [obind]|reflexivity].
  rewrite m_Cat, m_Grp_fecha.
  destruct (tomar_fecha t4) as [[d1 t5]|]; [cbn [obind]|reflexivity].
  rewrite m_Cat, m_Plus_det.
  2:{ intros a s' c' Ha. rewrite m_Cat, m_Cls, tomar_a_space by exact Ha.
      reflexivity. }
  destruct (tomar_espacios t5) as [t6|]; [cbn [obind]|reflexivity].
  rewrite m_Cat, m_Cls.
  destruct (tomar (es_letra "a") t6) as [t7|]; [cbn [obind]|reflexivity].
  rewrite m_Cat, m_Cls.
  destruct (tomar (es_letra "l") t7) as [t8|]; [cbn [obind]|reflexivity].
  rewrite m_Cat, m_Plus_det.
  2:{ intros a s' c' Ha. rewrite m_Cat, m_Grp_fecha, tomar_fecha_space by
        exact Ha. reflexivity. }
  destruct (tomar_espacios t8) as [t9|]; [cbn [obind]|reflexivity].
  rewrite m_Cat, m_Grp_fecha.
  destruct (tomar_fecha t9) as [[d2 t10]|]; reflexivity.
Qed.

Lemma tomar_inv p s s' :
  tomar p s = Some s' -> exists a, s = a :: s' /\ p a = true.
Proof.
  destruct s as [|a s]; simpl; [discriminate|].
  destruct (p a) eqn:E; [|discriminate].
  intros H. inversion H. subst. exists a. auto.
Qed.

Lemma tomar_espacios_inv s s' :
  tomar_espacios s = Some s' -> exists w, s = w ++ s' /\ espacios w.
Proof.
  destruct s as [|a s]; simpl; [discriminate|].
  destruct (is_space a) eqn:E; [|discriminate].
  intros H. inversion H. subst.
  destruct (dropWhile_split is_space s) as [w [Hs Hw]].
  exists (a :: w). split; [simpl; congruence|].
  split; [discriminate | constructor; assumption].
Qed.

Lemma tomar_fecha_inv s d s' :
  tomar_fecha s = Some (d, s') -> s = d ++ s' /\ es_fecha d = true.
Proof.
  unfold tomar_fecha. destruct (es_fecha (firstn 10 s)) eqn:E; [|discriminate].
  intros H.
  assert (d = firstn 10 s) as -> by congruence.
  assert (s' = skipn 10 s) as -> by congruence.
  split; [|exact E]. symmetry. apply firstn_skipn.
Qed.

Lemma tomar_espacios_run w s b s' :
  espacios w -> s = b :: s' -> is_space b = false ->
  tomar_espacios (w ++ s) = Some s.
Proof.
  intros [Hne Hw] -> Hb. destruct w as [|a w]; [contradiction|].
  inversion Hw as [|? ? Ha Hw']. subst. simpl. rewrite Ha.
  rewrite dropWhile_run by assumption. rewrite dropWhile_stop by assumption.
  reflexivity.
Qed.

Lemma tomar_fecha_app d s : es_fecha d = true -> tomar_fecha (d ++ s) = Some (d, s).
Proof.
  intros H. pose proof (es_fecha_length _ H) as Hl. unfold tomar_fecha.
  assert (firstn 10 (d ++ s) = d) as ->.
  { rewrite <- Hl. rewrite firstn_app, Nat.sub_diag, firstn_all. simpl.
    apply app_nil_r. }
  assert (skipn 10 (d ++ s) = s) as ->.
  { rewrite <- Hl. rewrite skipn_app, Nat.sub_diag, skipn_all. reflexivity. }
  rewrite H. reflexivity.
Qed.

Lemma es_fecha_head d :
  es_fecha d = true -> exists b d', d = b :: d' /\ is_space b = false.
Proof.
  intros H. destruct d as [|b d']; [discriminate|].
  exists b, d'. split; [reflexivity|]. apply digit_not_space.
  do 9 (destruct d' as [|? d']; [simpl in H; discriminate H|]).
  destruct d' as [|? d']; [|simpl in H; discriminate H].
  simpl in H. destruct (is_digit b); [reflexivity | discriminate H].
Qed.

Lemma letra_es_letra_d c : letra "d" "D" c <-> es_letra "d" c = true.
Proof.
  rewrite es_letra_d, orb_true_iff, !Ascii.eqb_eq. reflexivity.
Qed.

Lemma letra_es_letra_e c : letra "e" "E" c <-> es_letra "e" c = true.
Proof.
  rewrite es_letra_e, orb_true_iff, !Ascii.eqb_eq. reflexivity.
Qed.

Lemma letra_es_letra_l c : letra "l" "L" c <-> es_letra "l" c = true.
Proof.
  rewrite es_letra_l, orb_true_iff, !Ascii.eqb_eq. reflexivity.
Qed.

Lemma letra_es_letra_a c : letra "a" "A" c <-> es_letra "a" c = true.
Proof.
  rewrite es_letra_a, orb_true_iff, !Ascii.eqb_eq. reflexivity.
Qed.

Lemma obind_inv {A B} (o : option A) (f : A -> option B) b :
  obind o f = Some b -> exists a, o = Some a /\ f a = Some b.
Proof. destruct o as [a|]; simpl; [eauto | discriminate]. Qed.

Lemma vigencia_aqui_sound t d1 d2 rest :
  vigencia_aqui t = Some (d1, d2, rest) -> vigencia_en_cabeza t d1 d2.
Proof.
  unfold vigencia_aqui. intros H.
  apply obind_inv in H as (t1 & E1 & H).
  apply obind_inv in H as (t2 & E2 & H).
  apply obind_inv in H as (t3 & E3 & H).
  apply obind_inv in H as (t4 & E4 & H).
  apply obind_inv in H as ([e1 t5] & E5 & H).
  apply obind_inv in H as (t6 & E6 & H).
  apply obind_inv in H as (t7 & E7 & H).
  apply obind_inv in H as (t8 & E8 & H).
  apply obind_inv in H as (t9 & E9 & H).
  apply obind_inv in H as ([e2 t10] & E10 & H).
  assert (e1 = d1) as -> by congruence.
  assert (e2 = d2) as -> by congruence.
  assert (t10 = rest) as -> by congruence. clear H.
  apply tomar_inv in E1 as [x1 [-> H1]].
  apply tomar_inv in E2 as [x2 [-> H2]].
  apply tomar_inv in E3 as [x3 [-> H3]].
  apply tomar_espacios_inv in E4 as [w1 [-> Hw1]].
  apply tomar_fecha_inv in E5 as [-> Hd1].
  apply tomar_espacios_inv in E6 as [w2 [-> Hw2]].
  apply tomar_inv in E7 as [y1 [-> H7]].
  apply tomar_inv in E8 as [y2 [-> H8]].
  apply tomar_espacios_inv in E9 as [w3 [-> Hw3]].
  apply tomar_fecha_inv in E10 as [-> Hd2].
  exists x1, x2, x3, w1, w2, y1, y2, w3, rest.
  rewrite letra_es_letra_d, letra_es_letra_e, !letra_es_letra_l,
    letra_es_letra_a.
  repeat split; try assumption; try (apply Hw1 || apply Hw2 || apply Hw3).
Qed.

Lemma vigencia_aqui_complete t d1 d2 :
  vigencia_en_cabeza t d1 d2 ->
  exists rest, vigencia_aqui t = Some (d1, d2, rest).
Proof.
  intros (x1 & x2 & x3 & w1 & w2 & y1 & y2 & w3 & resto & -> & H1 & H2 & H3
          & Hw1 & Hd1 & Hw2 & H7 & H8 & Hw3 & Hd2).
  apply letra_es_letra_d in H1. apply letra_es_letra_e in H2.
  apply letra_es_letra_l in H3. apply letra_es_letra_a in H7.
  apply letra_es_letra_l in H8.
  exists resto. unfold vigencia_aqui. simpl app.
  cbn [tomar]. rewrite H1. cbn [obind tomar]. rewrite H2.
  cbn [obind tomar]. rewrite H3. cbn [obind].
  destruct (es_fecha_head _ Hd1) as (b1 & d1' & Eb1 & Hb1).
  destruct (es_fecha_head _ Hd2) as (b2 & d2' & Eb2 & Hb2).
  erewrite tomar_espacios_run;
    [ | exact Hw1 | rewrite Eb1; reflexivity | exact Hb1 ].
  cbn [obind]. rewrite tomar_fecha_app by exact Hd1. cbn [obind].
  erewrite tomar_espacios_run;
    [ | exact Hw2 | reflexivity | apply es_letra_a_not_space; exact H7 ].
  cbn [obind tomar]. rewrite H7. cbn [obind tomar]. rewrite H8. cbn [obind].
  erewrite tomar_espacios_run;
    [ | exact Hw3 | rewrite Eb2; reflexivity | exact Hb2 ].
  cbn [obind]. rewrite tomar_fecha_app by exact Hd2. reflexivity.
Qed.

(** *** The dates stored for a validity text *)

Lemma fechas_de_unfold s :
  fechas_de s =
  match vigencia_aqui s with
  | Some (d1, d2, _) => (JString d1, JString d2)
  | None =>
      match s with
      | [] => (JString [], JString [])
      | _ :: s' => fechas_de s'
      end
  end.
Proof.
  unfold fechas_de.
  destruct s as [|a s]; cbn [search]; rewrite exec_at_vigencia;
    (destruct (vigencia_aqui _) as [[[d1 d2] rest]|]; reflexivity).
Qed.

Lemma fechas_de_primera s d1 d2 :
  primera_vigencia s d1 d2 -> fechas_de s = (JString d1, JString d2).
Proof.
  intros (pre & t & -> & Ht & Hfirst).
  induction pre as [|a pre IH]; rewrite fechas_de_unfold.
  - simpl app. destruct (vigencia_aqui_complete Ht) as [rest ->]. reflexivity.
  - destruct (vigencia_aqui ((a :: pre) ++ t)) as [[[e1 e2] rest]|] eqn:E.
    + exfalso. apply vigencia_aqui_sound in E.
      apply (Hfirst [] (a :: pre) e1 e2); [reflexivity | discriminate | exact E].
    + simpl. apply IH. intros pre1 pre2 e1 e2 Hp Hne.
      apply (Hfirst (a :: pre1) pre2); [simpl; congruence | exact Hne].
Qed.

Lemma fechas_de_ninguna s :
  ~ contiene_vigencia s -> fechas_de s = (JString [], JString []).
Proof.
  induction s as [|a s IH]; intros Hno; rewrite fechas_de_unfold.
  - destruct (vigencia_aqui []) as [[[e1 e2] rest]|] eqn:E; [|reflexivity].
    discriminate E.
  - destruct (vigencia_aqui (a :: s)) as [[[e1 e2] rest]|] eqn:E.
    + exfalso. apply Hno. exists [], (a :: s), e1, e2.
      split; [reflexivity | exact (vigencia_aqui_sound _ E)].
    + apply IH. intros (pre & t & e1 & e2 & -> & Ht).
      apply Hno. exists (a :: pre), t, e1, e2. split; [reflexivity | exact Ht].
Qed.

(** Either the pattern occurs, and the stored dates are those of its
    leftmost occurrence, or it does not occur and both dates are empty. *)
Lemma fechas_de_cases s :
  (exists d1 d2, primera_vigencia s d1 d2 /\
                 es_fecha d1 = true /\ es_fecha d2 = true /\
                 fechas_de s = (JString d1, JString d2)) \/
  (~ contiene_vigencia s /\ fechas_de s = (JString [], JString [])).
Proof.
  induction s as [|a s IH]; rewrite fechas_de_unfold.
  - right. split; [|reflexivity].
    intros (pre & t & e1 & e2 & Hs & Ht).
    symmetry in Hs. apply app_eq_nil in Hs as [_ ->].
    destruct (vigencia_aqui_complete Ht) as [r Hr]. discriminate Hr.
  - destruct (vigencia_aqui (a :: s)) as [[[e1 e2] rest]|] eqn:E.
    + left. exists e1, e2. apply vigencia_aqui_sound in E.
      pose proof E as (x1 & x2 & x3 & w1 & w2 & y1 & y2 & w3 & resto & _ & _
                        & _ & _ & _ & Hd1 & _ & _ & _ & _ & Hd2).
      repeat split; try assumption.
      exists [], (a :: s). split; [reflexivity|]. split; [exact E|].
      intros pre1 pre2 f1 f2 Hp Hne. destruct pre1; destruct pre2;
        try discriminate Hp. contradiction.
    + destruct IH as [(d1 & d2 & (pre & t & -> & Ht & Hf) & Hd1 & Hd2 & IH)
                     | [Hno IH]]; [left | right].
      * exists d1, d2. repeat split; try assumption.
        exists (a :: pre), t. split; [reflexivity|]. split; [exact Ht|].
        intros pre1 pre2 f1 f2 Hp Hne Hbad.
        destruct pre1 as [|b pre1]; simpl in Hp.
        -- subst pre2. simpl in Hbad.
           destruct (vigencia_aqui_complete Hbad) as [r Hr]. congruence.
        -- inversion Hp. subst. exact (Hf pre1 pre2 f1 f2 eq_refl Hne Hbad).
      * split; [|exact IH].
        intros (pre & t & f1 & f2 & Hs & Ht). destruct pre as [|b pre].
        -- simpl in Hs. subst t.
           destruct (vigencia_aqui_complete Ht) as [r Hr]. congruence.
        -- inversion Hs. subst. apply Hno. exists pre, t, f1, f2. auto.
Qed.

(** ** Normalisation *)

Lemma fechas_de_nil : fechas_de [] = (JString [], JString []).
Proof. reflexivity. Qed.

Lemma str_eqb_nil t : str_eqb t (str "") = match t with [] => true | _ => false end.
Proof. destruct t; reflexivity. Qed.

(** A row is skipped exactly when its name is blank; a row that is kept
    yields the record [producto_de], and no row raises an exception. *)
Lemma procesarFila_closed now row :
  procesarFila now row =
  Ok (if fila_con_nombre row then Some (producto_de now row) else None).
Proof.
  unfold procesarFila, fila_con_nombre, producto_de.
  destruct (element row 0) as [| |[|a s]];
    cbn [truthy negb bind ret toString texto]; try reflexivity.
  rewrite str_eqb_nil.
  destruct (trim (a :: s)) as [|x t] eqn:Et; [reflexivity|].
  assert (forall v,
    (if truthy v then
       vigenciaStr <- toString v ;;
       match search re_vigencia vigenciaStr with
       | Some fechaMatch => ret (group fechaMatch 1, group fechaMatch 2)
       | None => ret (JString (str ""), JString (str ""))
       end
     else ret (JString (str ""), JString (str ""))) = Ok (fechas_de (texto v)))
    as Hf.
  { intros [| |[|b v]]; cbn [truthy bind ret toString texto];
      try (rewrite fechas_de_nil; reflexivity).
    unfold fechas_de. destruct (search re_vigencia (b :: v)); reflexivity. }
  rewrite Hf. cbn [bind ret].
  assert (forall v, (if truthy v then toString v else ret (str "")) =
                    Ok (texto v)) as Ht
      by (intros [| |[|b v]]; reflexivity).
  rewrite !Ht. cbn [bind ret].
  assert (forall v, (if truthy v then s0 <- toString v ;; ret (trim s0)
                     else ret (str "")) = Ok (trim (texto v))) as Hi
      by (intros [| |[|b v]]; reflexivity).
  rewrite Hi. cbn [bind ret]. reflexivity.
Qed.

Lemma mapM_procesarFila clock i rows :
  exists mapped,
    mapM_from (fun j row => procesarFila (clock j) row) i rows = Ok mapped /\
    filter_not_null mapped = productos_desde clock i rows.
Proof.
  revert i. induction rows as [|row rows IH]; intros i.
  - exists []. split; reflexivity.
  - destruct (IH (S i)) as (mapped & Hm & Hf).
    cbn [mapM_from productos_desde]. rewrite procesarFila_closed, Hm.
    cbn [bind]. eexists. split; [reflexivity|].
    destruct (fila_con_nombre row); cbn [filter_not_null]; congruence.
Qed.

(** [procesarProductos] never throws; it returns the products of the data
    rows that have a name. *)
Lemma procesarProductos_closed clock rawData :
  procesarProductos clock rawData =
  Ok (productos_desde clock 0 (filas rawData)).
Proof.
  destruct rawData as [[|header [|row rows]]|]; try reflexivity.
  unfold procesarProductos, mapM, filas.
  cbn [length Nat.leb skipn].
  destruct (mapM_procesarFila clock 0 (row :: rows)) as (mapped & Hm & Hf).
  rewrite Hm. cbn [bind ret]. rewrite Hf. reflexivity.
Qed.

Lemma productos_desde_Forall2 (R : list JsValue -> Producto -> Prop) clock :
  (forall now row, fila_con_nombre row = true -> R row (producto_de now row)) ->
  forall rows i,
    Forall2 R (filter fila_con_nombre rows) (productos_desde clock i rows).
Proof.
  intros HR rows. induction rows as [|row rows IH]; intros i; simpl;
    [constructor|].
  destruct (fila_con_nombre row) eqn:E; [constructor; auto | apply IH].
Qed.

Lemma productos_desde_In clock p rows i :
  In p (productos_desde clock i rows) ->
  exists now row, In row rows /\ fila_con_nombre row = true /\
                  p = producto_de now row.
Proof.
  revert i. induction rows as [|row rows IH]; intros i; simpl; [tauto|].
  destruct (fila_con_nombre row) eqn:E.
  - intros [<- | H]; [exists (clock i), row; auto|].
    destruct (IH _ H) as (now & r & Hr & Hk & Hp). exists now, r. auto.
  - intros H. destruct (IH _ H) as (now & r & Hr & Hk & Hp).
    exists now, r. auto.
Qed.

(** ** The identifier generator *)

(** C6.  [generateProductId] lower-cases its argument, removes every code
    unit that is not in [a-z], a digit or white space, replaces each run of
    white space by one hyphen and keeps the first 50 code units.  Hence its
    result contains only lower-case letters, digits and hyphens, is at most
    50 code units long, and equal arguments give equal results. *)
Theorem generateProductId_spec s :
  generateProductId s = generateId_spec s /\
  Forall (fun c => slug_char c = true) (generateProductId s) /\
  length (generateProductId s) <= 50 /\
  (forall s', s' = s -> generateProductId s' = generateProductId s).
Proof.
  split; [apply generateProductId_closed|].
  split; [apply generateProductId_slug|].
  split; [apply generateProductId_length|].
  intros s' ->. reflexivity.
Qed.

(** ** The validator *)

Lemma mensajes_distintos :
  msg_nombre <> msg_imagen /\ msg_nombre <> msg_compra /\
  msg_imagen <> msg_compra.
Proof. repeat split; discriminate. Qed.

Lemma validateProducto_errors p :
  errors (validateProducto p) =
  falta (nombre p) msg_nombre ++ falta (imagen p) msg_imagen
  ++ falta (compraMinima p) msg_compra.
Proof.
  unfold validateProducto, falta, push.
  destruct (nombre p), (imagen p), (compraMinima p); reflexivity.
Qed.

(** C4.  [validateProducto] answers [isValid = true] exactly when [nombre],
    [imagen] and [compraMinima] are all non-empty; its [errors] are, in the
    order name, image, minimum purchase, one fixed reason for each of the
    fields that is empty, each field being tested whatever the others are;
    the three reasons are different texts. *)
Theorem validateProducto_spec p :
  (isValid (validateProducto p) = true <->
   nombre p <> [] /\ imagen p <> [] /\ compraMinima p <> []) /\
  errors (validateProducto p) =
    falta (nombre p) msg_nombre ++ falta (imagen p) msg_imagen
    ++ falta (compraMinima p) msg_compra /\
  (isValid (validateProducto p) = true <-> errors (validateProducto p) = []) /\
  msg_nombre <> msg_imagen /\ msg_nombre <> msg_compra /\
  msg_imagen <> msg_compra.
Proof.
  split; [|split; [apply validateProducto_errors|
                   split; [|apply mensajes_distintos]]].
  - unfold validateProducto, push.
    destruct (nombre p), (imagen p), (compraMinima p); simpl;
      split; try discriminate; try tauto;
      try (intros _; repeat split; discriminate).
  - unfold validateProducto, push.
    destruct (nombre p), (imagen p), (compraMinima p); simpl;
      split; try discriminate; reflexivity.
Qed.

(** ** The statistics *)

Lemma length_filter_contar {A} (f : A -> bool) xs :
  length (filter f xs) = contar f xs.
Proof.
  induction xs as [|x xs IH]; simpl; [reflexivity|].
  destruct (f x); simpl; rewrite IH; reflexivity.
Qed.

Lemma contar_partition {A} (f : A -> bool) xs :
  contar f xs + contar (fun x => negb (f x)) xs = length xs.
Proof.
  induction xs as [|x xs IH]; simpl; [reflexivity|].
  destruct (f x); simpl; lia.
Qed.

Lemma contar_ext {A} (f g : A -> bool) xs :
  (forall x, f x = g x) -> contar f xs = contar g xs.
Proof.
  intros H. induction xs as [|x xs IH]; simpl; [reflexivity|].
  rewrite H, IH. reflexivity.
Qed.

(** C5.  In the statistics of any sequence of products, the counts with and
    without image add up to the total; they count the products whose image
    is non-empty, respectively empty; the active count equals the total,
    the total is the length of the sequence, and the validity count is the
    number of products whose validity text is non-empty. *)
Theorem stats_spec ps :
  conImagen (stats ps) + sinImagen (stats ps) = totalProductos (stats ps) /\
  conImagen (stats ps) = contar (fun p => negb (vacio (imagen p))) ps /\
  sinImagen (stats ps) = contar (fun p => vacio (imagen p)) ps /\
  productosActivos (stats ps) = totalProductos (stats ps) /\
  totalProductos (stats ps) = length ps /\
  conVigencia (stats ps) =
    contar (fun p => negb (vacio (vigenciaCompleta p))) ps.
Proof.
  unfold stats. cbn [conImagen sinImagen totalProductos productosActivos
                     conVigencia].
  rewrite !length_filter_contar.
  split; [apply contar_partition|].
  split; [apply contar_ext; intros p; destruct (imagen p); reflexivity|].
  split; [apply contar_ext; intros p; destruct (imagen p); reflexivity|].
  split; [reflexivity|]. split; [reflexivity|].
  apply contar_ext. intros p. destruct (vigenciaCompleta p); reflexivity.
Qed.

(** ** Rows and products *)

Lemma fila_con_nombre_nombre now row :
  fila_con_nombre row = true -> nombre (producto_de now row) <> [].
Proof.
  unfold fila_con_nombre, producto_de. cbn [nombre].
  destruct (trim (texto (element row 0))); [discriminate | discriminate].
Qed.

Lemma texto_falsy v : truthy v = false -> texto v = [].
Proof. destruct v as [| |[|a s]]; simpl; congruence. Qed.

Lemma producto_de_degrada now row : degrada row (producto_de now row).
Proof.
  unfold degrada, producto_de.
  cbn [vigenciaCompleta fechaInicio fechaFin compraMinima imagen].
  split; [|split; [|split]].
  - intros H. rewrite (texto_falsy _ H). auto.
  - intros H. rewrite (fechas_de_ninguna H). auto.
  - apply texto_falsy.
  - intros H. rewrite (texto_falsy _ H). reflexivity.
Qed.

(** C3.  A missing table and a table of at most one row give no product.
    Otherwise the header row is discarded and the result has exactly one
    product for each remaining row whose name cell is present and not blank
    once trimmed, in the order of those rows, the product's name being the
    trimmed text of the name cell; a row whose name is missing or blank
    yields nothing and raises nothing. *)
Theorem procesarProductos_rows clock :
  procesarProductos clock None = Ok [] /\
  (forall table, length table <= 1 ->
     procesarProductos clock (Some table) = Ok []) /\
  (forall header rows, exists ps,
     procesarProductos clock (Some (header :: rows)) = Ok ps /\
     Forall2 (fun row p => nombre p = trim (texto (element row 0)))
       (filter fila_con_nombre rows) ps) /\
  (forall now row,
     fila_con_nombre row = false -> procesarFila now row = Ok None).
Proof.
  split; [reflexivity|]. split; [|split].
  - intros [|h [|r rows]] Hlen; try reflexivity. simpl in Hlen. lia.
  - intros header rows. eexists. split; [apply procesarProductos_closed|].
    apply productos_desde_Forall2. reflexivity.
  - intros now row H. rewrite procesarFila_closed, H. reflexivity.
Qed.

(** C1, as the code has it.  The identifier of every product is the
    identifier generator applied to the text of the name cell as it stands
    in the sheet, before trimming, while the stored name is the trimmed
    text; the identifier equals the generator applied to the stored name
    whenever the name cell has no leading or trailing white space. *)
Theorem id_from_name_cell clock rawData :
  exists ps,
    procesarProductos clock rawData = Ok ps /\
    Forall2
      (fun row p =>
         id p = generateProductId (texto (element row 0)) /\
         nombre p = trim (texto (element row 0)) /\
         (trim (texto (element row 0)) = texto (element row 0) ->
          id p = generateProductId (nombre p)))
      (filter fila_con_nombre (filas rawData)) ps.
Proof.
  eexists. split; [apply procesarProductos_closed|].
  apply productos_desde_Forall2. intros now row _.
  unfold producto_de. cbn [id nombre].
  repeat split. intros ->. reflexivity.
Qed.

(** C1 fails as stated: a name cell with a leading blank gives the product
    named "A" the identifier "-a", while the generator maps "A" to "a". *)
Lemma blank_prefixed_name_id :
  exists p,
    procesarProductos (fun _ => str "t") tabla_blanco = Ok [p] /\
    nombre p = str "A" /\
    id p = str "-a" /\
    generateProductId (nombre p) = str "a" /\
    id p <> generateProductId (nombre p).
Proof.
  eexists. split; [vm_compute; reflexivity|].
  repeat split; vm_compute; discriminate.
Qed.

(** What C2 says of a kept row and its product. *)
Lemma producto_de_fechas now row :
  fechas_extraidas row (producto_de now row).
Proof.
  unfold fechas_extraidas, fechas_coherentes, producto_de.
  cbn [vigenciaCompleta fechaInicio fechaFin].
  split; [reflexivity|]. split; [|split; [|split; [|split]]].
  - intros d1 d2 H. rewrite (fechas_de_primera H). auto.
  - intros Hc.
    destruct (fechas_de_cases (texto (element row 1)))
      as [(d1 & d2 & H1 & _) | [Hno _]]; [eauto | contradiction].
  - intros Hno. rewrite (fechas_de_ninguna Hno). auto.
  - intros H. rewrite (texto_falsy _ H). auto.
  - destruct (fechas_de_cases (texto (element row 1)))
      as [(d1 & d2 & _ & Hd1 & Hd2 & ->) | [_ ->]]; [right | left; auto].
    exists d1, d2. auto.
Qed.

(** C2.  For every product and the row it comes from: the validity text is
    the text of the validity cell verbatim (empty when the cell is
    missing); when the pattern "del DD/MM/YYYY al DD/MM/YYYY" occurs in it,
    in any letter case, the start and end dates are the two dates of its
    leftmost occurrence; when it does not occur, or the cell is missing,
    both dates are the empty string; so on every product the two dates are
    both empty or both dates of the shape DD/MM/YYYY. *)
Theorem validity_extraction clock rawData :
  exists ps,
    procesarProductos clock rawData = Ok ps /\
    Forall2 fechas_extraidas (filter fila_con_nombre (filas rawData)) ps /\
    Forall fechas_coherentes ps.
Proof.
  eexists. split; [apply procesarProductos_closed|]. split.
  - apply productos_desde_Forall2. intros now row _.
    apply producto_de_fechas.
  - apply Forall_forall. intros p Hp.
    apply productos_desde_In in Hp as (now & row & _ & _ & ->).
    apply producto_de_fechas.
Qed.

(** The pattern does occur in the validity text of Scenario A, with the
    dates the scenario expects. *)
Example primera_vigencia_A :
  primera_vigencia (str "del 01/01/2024 al 31/01/2024")
    (str "01/01/2024") (str "31/01/2024").
Proof.
  exists [], (str "del 01/01/2024 al 31/01/2024").
  split; [reflexivity|]. split.
  - apply (@vigencia_aqui_sound _ _ _ []). vm_compute. reflexivity.
  - intros pre1 pre2 e1 e2 H Hne. destruct pre1; destruct pre2;
      try discriminate H. contradiction.
Qed.

(** ** Totality *)

Lemma Forall2_length_eq {A B} (R : A -> B -> Prop) xs ys :
  Forall2 R xs ys -> length xs = length ys.
Proof. induction 1; simpl; congruence. Qed.

(** C7.  Whatever the raw table is (absent, short rows, missing or arbitrary
    cell texts), [procesarProductos] returns a list and raises nothing,
    including in the calls it makes to [generateProductId]; the statistics
    and lookup handlers built on it never take their exception branch.  The
    result has one product for each data row with a non-blank name, so only
    a blank or missing name removes a row, and missing or unreadable cells
    leave empty fields on the product. *)
Theorem core_total clock rawData :
  exists ps,
    procesarProductos clock rawData = Ok ps /\
    length ps = length (filter fila_con_nombre (filas rawData)) /\
    Forall2 degrada (filter fila_con_nombre (filas rawData)) ps /\
    getStats clock rawData = Status200 (stats ps) /\
    (forall i, getProductoPorId clock rawData i <> Status500) /\
    (forall p, In p ps ->
       exists v, validateProducto p = v /\
                 length (errors v) <= 3 /\
                 length (generateProductId (nombre p)) <= 50).
Proof.
  exists (productos_desde clock 0 (filas rawData)).
  pose proof (procesarProductos_closed clock rawData) as Hp.
  assert (Forall2 degrada (filter fila_con_nombre (filas rawData))
            (productos_desde clock 0 (filas rawData))) as HF.
  { apply productos_desde_Forall2. intros now row _.
    apply producto_de_degrada. }
  split; [exact Hp|]. split; [symmetry; exact (Forall2_length_eq HF)|].
  split; [exact HF|]. split; [|split].
  - unfold getStats. rewrite Hp. reflexivity.
  - intros i. unfold getProductoPorId. rewrite Hp.
    destruct (find _ _); discriminate.
  - intros p _. eexists. split; [reflexivity|].
    split; [|apply generateProductId_length].
    rewrite validateProducto_errors. unfold falta.
    destruct (nombre p), (imagen p), (compraMinima p); simpl; lia.
Qed.

(** ** Lookup by identifier *)

Lemma find_first {A} (f : A -> bool) pre x post :
  f x = true -> (forall y, In y pre -> f y = false) ->
  find f (pre ++ x :: post) = Some x.
Proof.
  intros Hx. induction pre as [|y pre IH]; intros Hpre; simpl.
  - rewrite Hx. reflexivity.
  - rewrite (Hpre y) by (left; reflexivity).
    apply IH. intros z Hz. apply Hpre. right. exact Hz.
Qed.

Lemma find_absent {A} (f : A -> bool) xs :
  (forall y, In y xs -> f y = false) -> find f xs = None.
Proof.
  induction xs as [|y xs IH]; intros H; simpl; [reflexivity|].
  rewrite (H y) by (left; reflexivity).
  apply IH. intros z Hz. apply H. right. exact Hz.
Qed.

Lemma procesarProductos_A clock :
  procesarProductos clock tabla_A = Ok [producto_A (clock 0)].
Proof. rewrite procesarProductos_closed. vm_compute. reflexivity. Qed.

(** C8.  The lookup handler answers with the first product, in the order
    of the rows kept, whose identifier equals the requested one; when no
    product has that identifier it answers "not found" (status 404), and it
    never answers with the server-error status.  On the table of Scenario A
    the identifier of "Widget A" finds the one product, every other
    identifier is not found. *)
Theorem getProductoPorId_spec clock rawData i :
  (exists ps,
     procesarProductos clock rawData = Ok ps /\
     (forall pre p post,
        ps = pre ++ p :: post -> id p = i ->
        (forall q, In q pre -> id q <> i) ->
        getProductoPorId clock rawData i = Status200 p) /\
     ((forall q, In q ps -> id q <> i) ->
      getProductoPorId clock rawData i = Status404)) /\
  getProductoPorId clock rawData i <> Status500 /\
  getProductoPorId clock tabla_A (generateProductId (str "Widget A")) =
    Status200 (producto_A (clock 0)) /\
  (i <> generateProductId (str "Widget A") ->
   getProductoPorId clock tabla_A i = Status404).
Proof.
  pose proof (procesarProductos_closed clock rawData) as Hp.
  split; [|split; [|split]].
  - eexists. split; [exact Hp|]. unfold getProductoPorId. rewrite Hp. split.
    + intros pre p post -> Hid Hpre. rewrite find_first; [reflexivity| |].
      * apply str_eqb_eq. exact Hid.
      * intros q Hq. apply str_eqb_neq. apply Hpre. exact Hq.
    + intros Hno. rewrite find_absent; [reflexivity|].
      intros q Hq. apply str_eqb_neq. apply Hno. exact Hq.
  - unfold getProductoPorId. rewrite Hp. destruct (find _ _); discriminate.
  - unfold getProductoPorId. rewrite procesarProductos_A. reflexivity.
  - intros Hi. unfold getProductoPorId. rewrite procesarProductos_A.
    cbn [find]. rewrite str_eqb_neq; [reflexivity|].
    intros H. apply Hi. rewrite <- H. reflexivity.
Qed.

(** ** Validation of normalised products *)

(** C9.  No product returned by [procesarProductos] has an empty name, so
    validating it never reports 'Nombre requerido': its errors can only be
    the image and the minimum-purchase reasons. *)
Theorem normalized_name_present clock rawData :
  exists ps,
    procesarProductos clock rawData = Ok ps /\
    Forall (fun p =>
              nombre p <> [] /\
              ~ In msg_nombre (errors (validateProducto p)) /\
              incl (errors (validateProducto p)) [msg_imagen; msg_compra])
           ps.
Proof.
  eexists. split; [apply procesarProductos_closed|].
  apply Forall_forall. intros p Hp.
  apply productos_desde_In in Hp as (now & row & _ & Hk & ->).
  pose proof (@fila_con_nombre_nombre now row Hk) as Hn.
  split; [exact Hn|].
  rewrite validateProducto_errors.
  destruct (nombre (producto_de now row)) as [|a n]; [contradiction|].
  cbn [falta app].
  destruct mensajes_distintos as (H1 & H2 & H3).
  split.
  - unfold falta. destruct (imagen _), (compraMinima _); simpl;
      intuition congruence.
  - intros e He. unfold falta in He.
    destruct (imagen _), (compraMinima _); simpl in *; tauto.
Qed.

(** C10.  On a row that is kept, a minimum-purchase cell made only of
    white space is stored unchanged and the validator counts it as present,
    whereas an image cell made only of white space is stored as the empty
    string and the validator reports 'Imagen requerida'. *)
Theorem whitespace_cells now n v w x :
  fila_con_nombre [n] = true ->
  espacios w ->
  (exists p,
     procesarFila now [n; v; JString w; x] = Ok (Some p) /\
     compraMinima p = w /\
     ~ In msg_compra (errors (validateProducto p))) /\
  (exists q,
     procesarFila now [n; v; x; JString w] = Ok (Some q) /\
     imagen q = [] /\
     In msg_imagen (errors (validateProducto q))).
Proof.
  intros Hn [Hne Hw].
  destruct mensajes_distintos as (H1 & H2 & H3).
  split; eexists; (split; [rewrite procesarFila_closed;
                           change (fila_con_nombre _) with (fila_con_nombre [n]);
                           rewrite Hn; reflexivity|]).
  - split; [reflexivity|]. rewrite validateProducto_errors.
    pose proof (@fila_con_nombre_nombre now [n; v; JString w; x] Hn) as Hnom.
    destruct (nombre _) as [|a s]; [contradiction|].
    unfold producto_de. cbn [imagen compraMinima element nth texto].
    destruct w as [|b w]; [contradiction|]. cbn [falta app].
    unfold falta. destruct (trim (texto x)); simpl; intuition congruence.
  - unfold producto_de at 1. cbn [imagen element nth texto].
    split; [apply trim_espacios; exact Hw|].
    rewrite validateProducto_errors.
    unfold producto_de at 2. cbn [imagen element nth texto].
    rewrite (trim_espacios Hw). cbn [falta].
    apply in_or_app. right. left. reflexivity.
Qed.

(** C10 on a row named "A" whose cell is a single space. *)
Lemma whitespace_cells_witness :
  (exists p,
     procesarFila (str "t")
       [JString (str "A"); JUndefined; JString (str " "); JString (str "x")]
     = Ok (Some p) /\
     compraMinima p = str " " /\
     ~ In msg_compra (errors (validateProducto p))) /\
  (exists q,
     procesarFila (str "t")
       [JString (str "A"); JUndefined; JString (str "x"); JString (str " ")]
     = Ok (Some q) /\
     imagen q = [] /\
     In msg_imagen (errors (validateProducto q))).
Proof.
  apply (@whitespace_cells (str "t") (JString (str "A")) JUndefined (str " ")
           (JString (str "x"))).
  - reflexivity.
  - split; [discriminate | repeat constructor].
Defined.

(** ** The scenarios of the specification *)

Example scenario_A clock :
  procesarProductos clock tabla_A = Ok [producto_A (clock 0)].
Proof. apply procesarProductos_A. Qed.

Example scenario_B clock : procesarProductos clock tabla_B = Ok [].
Proof. rewrite procesarProductos_closed. reflexivity. Qed.

Example scenario_C clock :
  procesarProductos clock tabla_C = Ok [producto_C (clock 0)] /\
  validateProducto (producto_C (clock 0)) =
    mkValidation false [msg_imagen; msg_compra].
Proof.
  split; [rewrite procesarProductos_closed; vm_compute|]; reflexivity.
Qed.

(** ** The private key *)

Lemma exec_at_barra_n s :
  exec_at re_barra_n s =
  match s with
  | a :: b :: rest =>
      if (Ascii.eqb barra a && Ascii.eqb "n" b)%bool then Some (rest, [])
      else None
  | _ => None
  end.
Proof.
  destruct s as [|a [|b rest]]; unfold exec_at, re_barra_n;
    cbn [cat_all fold_right m]; try reflexivity.
  - destruct (Ascii.eqb barra a); reflexivity.
  - destruct (Ascii.eqb barra a), (Ascii.eqb "n" b); reflexivity.
Qed.

(** The global replacement of line 45 is [desescapar]. *)
Lemma replace_loop_barra_n fuel s :
  length s < fuel ->
  replace_loop fuel re_barra_n [salto] s = desescapar s.
Proof.
  revert s. induction fuel as [|fuel IH]; intros s Hlen; [lia|].
  destruct s as [|a [|b rest]]; [reflexivity| |].
  - cbn [replace_loop]. rewrite exec_at_barra_n.
    destruct fuel; [simpl in Hlen; lia | reflexivity].
  - simpl in Hlen. cbn [replace_loop]. rewrite exec_at_barra_n.
    cbn [desescapar].
    destruct (Ascii.eqb barra a && Ascii.eqb "n" b)%bool.
    + assert (Nat.ltb (length rest) (length (a :: b :: rest)) = true) as ->
          by (apply Nat.ltb_lt; simpl; lia).
      rewrite IH by lia. reflexivity.
    + rewrite IH by (simpl; lia). reflexivity.
Qed.

Lemma getGoogleSheetsClient_closed s :
  getGoogleSheetsClient (JString s) = Ok (mkClient (desescapar s)).
Proof.
  unfold getGoogleSheetsClient, private_key, replace_all.
  rewrite replace_loop_barra_n by lia. reflexivity.
Qed.

(** Induction following the two-step recursion of [desescapar]. *)
Lemma desescapar_ind (P : list ascii -> Prop) :
  P [] ->
  (forall a, P [a]) ->
  (forall s, P s -> P (barra :: "n"%char :: s)) ->
  (forall a b s,
     (Ascii.eqb barra a && Ascii.eqb "n" b)%bool = false ->
     P (b :: s) -> P (a :: b :: s)) ->
  forall s : list ascii, P s.
Proof.
  intros Hnil Hone Hpair Hstep s.
  enough (P s /\ forall a, P (a :: s)) by tauto.
  induction s as [|b s [IHs IHb]]; [split; auto|].
  split; [apply IHb|]. intros a.
  destruct (Ascii.eqb barra a && Ascii.eqb "n" b)%bool eqn:E.
  - apply andb_true_iff in E as [Ea Eb].
    apply Ascii.eqb_eq in Ea, Eb. subst. apply Hpair. exact IHs.
  - apply Hstep; [exact E | apply IHb].
Qed.

Lemma desescapar_pair s :
  desescapar (barra :: "n"%char :: s) = salto :: desescapar s.
Proof. reflexivity. Qed.

Lemma desescapar_step a b s :
  (Ascii.eqb barra a && Ascii.eqb "n" b)%bool = false ->
  desescapar (a :: b :: s) = a :: desescapar (b :: s).
Proof. intros H. cbn [desescapar]. rewrite H. reflexivity. Qed.

(** The first code unit of the result is a line feed or the first code unit
    of the argument. *)
Lemma desescapar_head s c t :
  desescapar s = c :: t -> c = salto \/ exists t', s = c :: t'.
Proof.
  destruct s as [|a [|b s]]; [discriminate| |].
  - intros H. inversion H. right. eauto.
  - cbn [desescapar].
    destruct (Ascii.eqb barra a && Ascii.eqb "n" b)%bool; intros H;
      inversion H; [left; reflexivity | right; eauto].
Qed.

Lemma tiene_par_cons x y a b s :
  tiene_par x y (a :: b :: s) =
  ((Ascii.eqb a x && Ascii.eqb b y) || tiene_par x y (b :: s))%bool.
Proof. reflexivity. Qed.

Lemma tiene_par_tail x y a s :
  tiene_par x y s = true -> tiene_par x y (a :: s) = true.
Proof.
  destruct s as [|b s]; [discriminate|]. intros H.
  rewrite tiene_par_cons, H. apply orb_true_r.
Qed.

Lemma tiene_par_spec x y s : tiene_par x y s = true <-> par_en x y s.
Proof.
  split.
  - induction s as [|a [|b s] IH]; [discriminate | discriminate |].
    rewrite tiene_par_cons, orb_true_iff, andb_true_iff, !Ascii.eqb_eq.
    intros [[-> ->] | H].
    + exists [], s. reflexivity.
    + destruct (IH H) as (pre & post & E). exists (a :: pre), post.
      simpl. rewrite E. reflexivity.
  - intros (pre & post & ->). induction pre as [|a pre IH].
    + change (tiene_par x y (x :: y :: post) = true).
      rewrite tiene_par_cons, !Ascii.eqb_refl. reflexivity.
    + apply tiene_par_tail. exact IH.
Qed.

Lemma desescapar_sin_par s : tiene_par barra "n" (desescapar s) = false.
Proof.
  induction s as [| a | s IH | a b s E IH] using desescapar_ind;
    try reflexivity.
  - rewrite desescapar_pair.
    destruct (desescapar s) as [|c t] eqn:Ed; [reflexivity|].
    rewrite tiene_par_cons, IH. reflexivity.
  - rewrite desescapar_step by exact E.
    destruct (desescapar (b :: s)) as [|c t] eqn:Ed; [reflexivity|].
    rewrite tiene_par_cons, IH, orb_false_r.
    destruct (Ascii.eqb a barra) eqn:Ea; [|reflexivity].
    apply Ascii.eqb_eq in Ea. subst a. rewrite Ascii.eqb_refl in E.
    simpl in E. simpl.
    destruct (desescapar_head _ Ed) as [-> | [t' Ht]]; [reflexivity|].
    inversion Ht. subst. rewrite Ascii.eqb_sym. exact E.
Qed.


Lemma desescapar_fijo s : tiene_par barra "n" s = false -> desescapar s = s.
Proof.
  induction s as [| a | s IH | a b s E IH] using desescapar_ind;
    try reflexivity.
  - rewrite tiene_par_cons, !Ascii.eqb_refl. discriminate.
  - rewrite tiene_par_cons. intros H. apply orb_false_iff in H as [_ H].
    rewrite desescapar_step by exact E. rewrite IH by exact H. reflexivity.
Qed.



(** X2.  A key without any backslash-n pair is used unchanged, so
    converting an already converted key changes nothing. *)
Theorem private_key_fixed s :
  (~ par_en barra "n" s ->
   getGoogleSheetsClient (JString s) = Ok (mkClient s)) /\
  (exists client,
     getGoogleSheetsClient (JString s) = Ok client /\
     getGoogleSheetsClient (JString (client_private_key client)) = Ok client).
Proof.
  split.
  - intros H. rewrite getGoogleSheetsClient_closed, desescapar_fijo;
      [reflexivity|].
    destruct (tiene_par barra "n" s) eqn:E; [|reflexivity].
    apply tiene_par_spec in E. contradiction.
  - exists (mkClient (desescapar s)).
    split; [apply getGoogleSheetsClient_closed|]. cbn [client_private_key].
    rewrite getGoogleSheetsClient_closed, desescapar_fijo;
      [reflexivity | apply desescapar_sin_par].
Qed.

(** ** The routes *)

Lemma getProductoPorId_closed clock values i :
  getProductoPorId clock values i =
  match find (fun p => str_eqb (id p) i)
             (productos_desde clock 0 (filas values)) with
  | Some producto => Status200 producto
  | None => Status404
  end.
Proof.
  unfold getProductoPorId. rewrite procesarProductos_closed. reflexivity.
Qed.

Lemma getStats_closed clock values :
  getStats clock values =
  Status200 (stats (productos_desde clock 0 (filas values))).
Proof. unfold getStats. rewrite procesarProductos_closed. reflexivity. Qed.

Lemma rutaProductos_closed clock s get :
  rutaProductos clock (JString s) get =
  match get (mkClient (desescapar s)) with
  | None => Status500
  | Some None => Status404
  | Some (Some t) =>
      let ps := productos_desde clock 0 (filas (Some t)) in
      Status200
        (mkLista ps (length ps)
           (length (filter (fun p => isValid (validateProducto p)) ps))
           (length
              (filter (fun p => negb (isValid (validateProducto p))) ps)))
  end.
Proof.
  unfold rutaProductos. rewrite getGoogleSheetsClient_closed.
  destruct (get _) as [[t|]|]; try reflexivity.
  rewrite procesarProductos_closed. reflexivity.
Qed.


(** X4.  When the sheet answers without values, the listing and the lookup
    answer 404 while the statistics answer 200 with every count at zero; a
    sheet with no row or with its header row only is listed with status 200
    and no product. *)
Theorem rutas_hoja_vacia clock s id_ :
  rutaProductos clock (JString s) (entrega (Some None)) = Status404 /\
  rutaProductoPorId clock (JString s) (entrega (Some None)) id_ = Status404 /\
  rutaStats clock (JString s) (entrega (Some None)) =
    Status200 (mkStats 0 0 0 0 0) /\
  rutaProductos clock (JString s) (entrega (Some (Some []))) =
    Status200 (mkLista [] 0 0 0) /\
  (forall header,
     rutaProductos clock (JString s) (entrega (Some (Some [header]))) =
     Status200 (mkLista [] 0 0 0)).
Proof.
  rewrite !rutaProductos_closed. unfold rutaProductoPorId, rutaStats.
  rewrite getGoogleSheetsClient_closed. unfold entrega.
  repeat split.
Qed.

Lemma Status200_inj {A} (a b : A) : Status200 a = Status200 b -> a = b.
Proof. intros H. inversion H. reflexivity. Qed.

Lemma contar_ext_in {A} (f g : A -> bool) xs :
  (forall x, In x xs -> f x = g x) -> contar f xs = contar g xs.
Proof.
  induction xs as [|x xs IH]; intros H; simpl; [reflexivity|].
  rewrite (H x) by (left; reflexivity).
  rewrite IH; [reflexivity|]. intros y Hy. apply H. right. exact Hy.
Qed.

Lemma contar_le {A} (f g : A -> bool) xs :
  (forall x, In x xs -> f x = true -> g x = true) ->
  contar f xs <= contar g xs.
Proof.
  induction xs as [|x xs IH]; intros H; simpl; [lia|].
  assert (contar f xs <= contar g xs) as Hle
      by (apply IH; intros y Hy; apply H; right; exact Hy).
  destruct (f x) eqn:E; [|lia].
  rewrite (H x) by (auto; left; reflexivity). lia.
Qed.

Lemma isValid_nombre p :
  nombre p <> [] -> isValid (validateProducto p) = negb (incompleto p).
Proof.
  unfold validateProducto, incompleto, push, vacio.
  destruct (nombre p); [contradiction|].
  destruct (imagen p), (compraMinima p); reflexivity.
Qed.

Lemma productos_desde_nombre clock rows i p :
  In p (productos_desde clock i rows) -> nombre p <> [].
Proof.
  intros Hp. apply productos_desde_In in Hp as (now & row & _ & Hk & ->).
  apply fila_con_nombre_nombre. exact Hk.
Qed.

(** X5.  A successful listing carries every product of the sheet, the
    incomplete ones included: its total is the number of products listed,
    the valid and invalid counts add up to the total, and the invalid count
    is the number of listed products without image or without minimum
    purchase. *)
Theorem rutaProductos_counts clock GOOGLE_PRIVATE_KEY get body :
  rutaProductos clock GOOGLE_PRIVATE_KEY get = Status200 body ->
  (exists sheets table,
     getGoogleSheetsClient GOOGLE_PRIVATE_KEY = Ok sheets /\
     get sheets = Some (Some table) /\
     procesarProductos clock (Some table) = Ok (productos body)) /\
  total body = length (productos body) /\
  productosValidos body + productosInvalidos body = total body /\
  productosInvalidos body = contar incompleto (productos body).
Proof.
  destruct GOOGLE_PRIVATE_KEY as [| |s]; try discriminate.
  rewrite rutaProductos_closed.
  destruct (get (mkClient (desescapar s))) as [[t|]|] eqn:G; try discriminate.
  cbv zeta. intros H. apply Status200_inj in H. subst body.
  cbn [productos total productosValidos productosInvalidos].
  split; [|split; [reflexivity|split]].
  - exists (mkClient (desescapar s)), t.
    rewrite getGoogleSheetsClient_closed, procesarProductos_closed. auto.
  - rewrite !length_filter_contar. apply contar_partition.
  - rewrite length_filter_contar. apply contar_ext_in. intros p Hp.
    cbv beta. rewrite isValid_nombre by exact (productos_desde_nombre _ _ _ _ Hp).
    apply negb_involutive.
Qed.

(** X5 on the sheet of Scenario A. *)
Lemma rutaProductos_counts_witness :
  (exists sheets table,
     getGoogleSheetsClient (JString (str "k")) = Ok sheets /\
     entrega (Some tabla_A) sheets = Some (Some table) /\
     procesarProductos (fun _ => str "t") (Some table) =
     Ok (productos (mkLista [producto_A (str "t")] 1 1 0))) /\
  total (mkLista [producto_A (str "t")] 1 1 0) =
    length (productos (mkLista [producto_A (str "t")] 1 1 0)) /\
  productosValidos (mkLista [producto_A (str "t")] 1 1 0)
  + productosInvalidos (mkLista [producto_A (str "t")] 1 1 0) =
    total (mkLista [producto_A (str "t")] 1 1 0) /\
  productosInvalidos (mkLista [producto_A (str "t")] 1 1 0) =
    contar incompleto (productos (mkLista [producto_A (str "t")] 1 1 0)).
Proof.
  apply (@rutaProductos_counts (fun _ => str "t") (JString (str "k"))
           (entrega (Some tabla_A))).
  vm_compute. reflexivity.
Defined.

(** X6.  When the listing and the statistics both succeed on the same
    sheet, they agree on the total, every valid product has an image, and
    every product without image is counted as invalid. *)
Theorem rutas_coherentes clock GOOGLE_PRIVATE_KEY get body st :
  rutaProductos clock GOOGLE_PRIVATE_KEY get = Status200 body ->
  rutaStats clock GOOGLE_PRIVATE_KEY get = Status200 st ->
  totalProductos st = total body /\
  productosValidos body <= conImagen st /\
  sinImagen st <= productosInvalidos body.
Proof.
  destruct GOOGLE_PRIVATE_KEY as [| |s]; try discriminate.
  rewrite rutaProductos_closed. unfold rutaStats.
  rewrite getGoogleSheetsClient_closed.
  destruct (get (mkClient (desescapar s))) as [[t|]|] eqn:G; try discriminate.
  rewrite getStats_closed. cbv zeta.
  intros H1 H2. apply Status200_inj in H1, H2. subst body st.
  cbn [total productosValidos productosInvalidos].
  unfold stats. cbn [totalProductos conImagen sinImagen].
  rewrite !length_filter_contar.
  split; [reflexivity|]. split; apply contar_le; intros p Hp; cbv beta.
  - rewrite isValid_nombre by exact (productos_desde_nombre _ _ _ _ Hp).
    unfold incompleto. destruct (imagen p); [discriminate | reflexivity].
  - rewrite isValid_nombre by exact (productos_desde_nombre _ _ _ _ Hp).
    unfold incompleto. destruct (imagen p); [reflexivity | discriminate].
Qed.

(** X6 on the sheet of Scenario A. *)
Lemma rutas_coherentes_witness :
  totalProductos (mkStats 1 1 1 0 1) =
    total (mkLista [producto_A (str "t")] 1 1 0) /\
  productosValidos (mkLista [producto_A (str "t")] 1 1 0)
    <= conImagen (mkStats 1 1 1 0 1) /\
  sinImagen (mkStats 1 1 1 0 1)
    <= productosInvalidos (mkLista [producto_A (str "t")] 1 1 0).
Proof.
  apply (@rutas_coherentes (fun _ => str "t") (JString (str "k"))
           (entrega (Some tabla_A)));
    vm_compute; reflexivity.
Defined.

(** ** More on identifiers *)

Lemma slug_char_lower c : slug_char c = true -> lower_char c = c.
Proof. por_casos c. Qed.

Lemma slug_char_keep c : slug_char c = true -> slug_keep c = sin_guion c.
Proof. por_casos c. Qed.

Lemma slug_char_not_space c : slug_char c = true -> is_space c = false.
Proof. por_casos c. Qed.

Lemma lower_char_space c : is_space (lower_char c) = is_space c.
Proof. por_casos c. Qed.

Lemma slug_keep_sin_guion c : slug_keep c = true -> Ascii.eqb c "-" = false.
Proof. por_casos c. Qed.

Lemma not_keep_not_space c :
  slug_keep (lower_char c) = false -> is_space c = false.
Proof. por_casos c. Qed.

Lemma map_fixed {A} (f : A -> A) xs :
  Forall (fun x => f x = x) xs -> map f xs = xs.
Proof. induction 1; simpl; congruence. Qed.

Lemma filter_ext_Forall {A} (f g : A -> bool) xs :
  Forall (fun x => f x = g x) xs -> filter f xs = filter g xs.
Proof.
  induction 1 as [|x xs Hx _ IH]; simpl; [reflexivity|].
  rewrite Hx, IH. reflexivity.
Qed.

Lemma filter_all {A} (f : A -> bool) xs :
  Forall (fun x => f x = true) xs -> filter f xs = xs.
Proof.
  induction 1 as [|x xs Hx _ IH]; simpl; [reflexivity|].
  rewrite Hx, IH. reflexivity.
Qed.

Lemma filter_length_le {A} (f : A -> bool) xs :
  length (filter f xs) <= length xs.
Proof.
  induction xs as [|x xs IH]; simpl; [lia|]. destruct (f x); simpl; lia.
Qed.

Lemma Forall_filter {A} (P : A -> Prop) (f : A -> bool) xs :
  Forall P xs -> Forall P (filter f xs).
Proof.
  induction 1 as [|x xs Hx _ IH]; simpl; [constructor|].
  destruct (f x); [constructor|]; assumption.
Qed.

Lemma colapsar_sin_espacios b s :
  Forall (fun c => is_space c = false) s -> colapsar b s = s.
Proof.
  intros H. revert b. induction H as [|c s Hc _ IH]; intros b; simpl;
    [reflexivity|].
  rewrite Hc, IH. reflexivity.
Qed.

Lemma Forall_impl_in {A} (P Q : A -> Prop) xs :
  (forall x, P x -> Q x) -> Forall P xs -> Forall Q xs.
Proof. intros H. induction 1; constructor; auto. Qed.

(** X7.  Hyphens never survive the generator: applying it to an identifier
    returns that identifier with its hyphens deleted.  In particular the
    generator reproduces an identifier whenever the name it came from has
    no white space. *)
Theorem generateProductId_twice s :
  generateProductId (generateProductId s) =
    filter sin_guion (generateProductId s) /\
  ((forall c, In c s -> is_space c = false) ->
   generateProductId (generateProductId s) = generateProductId s).
Proof.
  pose proof (generateProductId_slug s) as Hslug.
  pose proof (generateProductId_length s) as Hlen.
  assert (generateProductId (generateProductId s) =
          filter sin_guion (generateProductId s)) as Heq.
  { rewrite (generateProductId_closed (generateProductId s)).
    unfold generateId_spec, toLowerCase.
    rewrite map_fixed
      by (eapply Forall_impl_in; [exact slug_char_lower | exact Hslug]).
    rewrite (@filter_ext_Forall _ slug_keep sin_guion)
      by (eapply Forall_impl_in; [exact slug_char_keep | exact Hslug]).
    rewrite colapsar_sin_espacios
      by (apply Forall_filter; eapply Forall_impl_in;
          [exact slug_char_not_space | exact Hslug]).
    apply firstn_all2.
    pose proof (filter_length_le sin_guion (generateProductId s)). lia. }
  split; [exact Heq|]. intros Hs. rewrite Heq. apply filter_all.
  rewrite generateProductId_closed. unfold generateId_spec, toLowerCase.
  assert (Forall (fun c => slug_keep c = true /\ is_space c = false)
            (filter slug_keep (map lower_char s))) as Hu.
  { apply Forall_forall. intros c Hc. apply filter_In in Hc as [Hc Hk].
    split; [exact Hk|]. apply in_map_iff in Hc as (d & <- & Hd).
    rewrite lower_char_space. apply Hs. exact Hd. }
  rewrite colapsar_sin_espacios
    by (eapply Forall_impl_in; [|exact Hu]; cbv beta; tauto).
  apply Forall_firstn. eapply Forall_impl_in; [|exact Hu].
  intros c [Hk _]. unfold sin_guion.
  rewrite slug_keep_sin_guion by exact Hk. reflexivity.
Qed.

Lemma colapsar_guiones b s :
  Forall (fun c => Ascii.eqb c "-" = false) s ->
  tiene_par "-" "-" (colapsar b s) = false /\
  (b = true -> forall t, colapsar b s <> "-"%char :: t).
Proof.
  intros H. revert b.
  induction H as [|c s Hc _ IH]; intros b; [split; [reflexivity|discriminate]|].
  cbn [colapsar]. destruct (is_space c).
  - destruct b; [apply IH|]. split; [|discriminate].
    destruct (IH true) as [Hp Hh].
    destruct (colapsar true s) as [|d t] eqn:E; [reflexivity|].
    rewrite tiene_par_cons, Hp, orb_false_r.
    destruct (Ascii.eqb d "-") eqn:Ed; [|apply andb_false_r].
    apply Ascii.eqb_eq in Ed. subst d. exfalso.
    exact (Hh eq_refl t eq_refl).
  - destruct (IH false) as [Hp _]. split.
    + destruct (colapsar false s) as [|d t] eqn:E; [reflexivity|].
      rewrite tiene_par_cons, Hp, Hc. reflexivity.
    + intros _ t Ht. inversion Ht. subst c. discriminate Hc.
Qed.

Lemma par_en_firstn x y n s : par_en x y (firstn n s) -> par_en x y s.
Proof.
  intros (pre & post & E). exists pre, (post ++ skipn n s).
  rewrite <- (firstn_skipn n s) at 1. rewrite E, <- app_assoc.
  reflexivity.
Qed.

Lemma tiene_par_firstn x y n s :
  tiene_par x y s = false -> tiene_par x y (firstn n s) = false.
Proof.
  intros H. destruct (tiene_par x y (firstn n s)) eqn:E; [|reflexivity].
  apply tiene_par_spec, par_en_firstn, tiene_par_spec in E. congruence.
Qed.

Lemma generateId_spec_guiones s :
  tiene_par "-" "-" (generateId_spec s) = false.
Proof.
  unfold generateId_spec. apply tiene_par_firstn.
  apply colapsar_guiones.
  apply Forall_forall. intros c Hc. apply filter_In in Hc as [_ Hk].
  apply slug_keep_sin_guion. exact Hk.
Qed.

(** X8.  An identifier never contains two hyphens in a row. *)
Theorem generateProductId_no_double_hyphen s :
  ~ par_en "-" "-" (generateProductId s).
Proof.
  rewrite generateProductId_closed. intros H.
  apply tiene_par_spec in H.
  rewrite generateId_spec_guiones in H. discriminate H.
Qed.

(** X9.  A code unit that, once lower-cased, is neither in [a-z], nor a
    digit, nor white space leaves no trace in the identifier: names that
    differ only by such code units get the same identifier. *)
Theorem generateProductId_ignores a c b :
  slug_keep (lower_char c) = false ->
  generateProductId (a ++ c :: b) = generateProductId (a ++ b).
Proof.
  intros H. rewrite !generateProductId_closed.
  unfold generateId_spec, toLowerCase.
  rewrite !map_app, !filter_app. cbn [map filter]. rewrite H. reflexivity.
Qed.

(** X9 on "Caf" followed by an accented letter and on "Caf". *)
Lemma generateProductId_ignores_witness :
  generateProductId (str "Caf" ++ "233"%char :: str " Bar") =
  generateProductId (str "Caf" ++ str " Bar").
Proof.
  apply (@generateProductId_ignores (str "Caf") "233"%char (str " Bar")).
  reflexivity.
Defined.

(** ** More on products *)

Lemma dropWhile_first p s a s' : dropWhile p s = a :: s' -> p a = false.
Proof.
  induction s as [|b s IH]; simpl; [discriminate|].
  destruct (p b) eqn:E; [exact IH|].
  intros H. inversion H. subst. exact E.
Qed.

Lemma trim_recortado s : recortado (trim s).
Proof.
  unfold trim, trimEnd, trimStart.
  set (u := dropWhile is_space s).
  destruct (dropWhile_split is_space (rev u)) as [w [Hr _]].
  assert (u = rev (dropWhile is_space (rev u)) ++ rev w) as Hu.
  { rewrite <- rev_app_distr, <- Hr, rev_involutive. reflexivity. }
  split; intros c s' E.
  - rewrite E in Hu. simpl in Hu. exact (dropWhile_first _ _ Hu).
  - apply (f_equal (@rev ascii)) in E.
    rewrite rev_involutive, rev_app_distr in E. simpl in E.
    exact (dropWhile_first _ _ E).
Qed.

Lemma recortado_trim s : recortado s -> trim s = s.
Proof.
  intros [Hhead Hlast]. unfold trim, trimEnd, trimStart.
  assert (dropWhile is_space s = s) as ->.
  { destruct s as [|c s']; [reflexivity|].
    apply dropWhile_stop. exact (Hhead c s' eq_refl). }
  destruct (rev s) as [|c t] eqn:E.
  - apply (f_equal (@rev ascii)) in E. rewrite rev_involutive in E.
    simpl in E. subst. reflexivity.
  - rewrite dropWhile_stop.
    + rewrite <- E. apply rev_involutive.
    + apply (Hlast c (rev t)).
      apply (f_equal (@rev ascii)) in E. rewrite rev_involutive in E.
      exact E.
Qed.

Lemma sin_espacios_recortado s :
  (forall c, In c s -> is_space c = false) -> recortado s.
Proof.
  intros H. split; intros c s' ->; apply H.
  - left. reflexivity.
  - apply in_or_app. right. left. reflexivity.
Qed.

(** X10.  Every product has a name and an image without white space at
    either end, so trimming them again changes nothing. *)
Theorem productos_recortados clock rawData :
  exists ps,
    procesarProductos clock rawData = Ok ps /\
    Forall (fun p =>
              recortado (nombre p) /\ recortado (imagen p) /\
              trim (nombre p) = nombre p /\ trim (imagen p) = imagen p)
           ps.
Proof.
  eexists. split; [apply procesarProductos_closed|].
  apply Forall_forall. intros p Hp.
  apply productos_desde_In in Hp as (now & row & _ & _ & ->).
  unfold producto_de. cbn [nombre imagen].
  repeat split; try apply trim_recortado;
    apply recortado_trim, trim_recortado.
Qed.

Lemma generateProductId_nada s :
  (forall c, In c s -> slug_keep (lower_char c) = false) ->
  generateProductId s = [].
Proof.
  intros H. rewrite generateProductId_closed.
  unfold generateId_spec, toLowerCase.
  assert (filter slug_keep (map lower_char s) = []) as ->; [|reflexivity].
  induction s as [|c s IH]; [reflexivity|]. simpl.
  rewrite (H c) by (left; reflexivity).
  apply IH. intros d Hd. apply H. right. exact Hd.
Qed.

(** X11.  A name made only of code units that the generator drops
    (punctuation, accented letters) still yields a product, stored under
    that name, but its identifier is the empty string. *)
Theorem nombre_sin_id clock header s rest :
  s <> [] ->
  (forall c, In c s -> slug_keep (lower_char c) = false) ->
  exists p,
    procesarProductos clock (Some [header; JString s :: rest]) = Ok [p] /\
    nombre p = s /\ id p = [].
Proof.
  intros Hne Hs.
  assert (trim s = s) as Ht.
  { apply recortado_trim, sin_espacios_recortado.
    intros c Hc. apply not_keep_not_space, Hs, Hc. }
  exists (producto_de (clock 0) (JString s :: rest)).
  rewrite procesarProductos_closed. cbn [filas productos_desde].
  unfold fila_con_nombre. cbn [element nth texto]. rewrite Ht.
  destruct s as [|c s']; [contradiction|].
  split; [reflexivity|]. unfold producto_de.
  cbn [nombre id element nth texto].
  split; [exact Ht | apply generateProductId_nada; exact Hs].
Qed.

(** X11 on a row named by two exclamation marks. *)
Lemma nombre_sin_id_witness :
  exists p,
    procesarProductos (fun _ => str "t")
      (Some [cabecera; JString (str "!!") :: []]) = Ok [p] /\
    nombre p = str "!!" /\ id p = [].
Proof.
  apply (@nombre_sin_id (fun _ => str "t") cabecera (str "!!") []).
  - discriminate.
  - intros c [<- | [<- | []]]; reflexivity.
Defined.

(** X12.  The product of a kept row is valid exactly when the image cell
    of the row holds something else than white space and its
    minimum-purchase cell holds any text at all. *)
Theorem valido_segun_fila clock rawData :
  exists ps,
    procesarProductos clock rawData = Ok ps /\
    Forall2
      (fun row p =>
         isValid (validateProducto p) = true <->
         trim (texto (element row 3)) <> [] /\ texto (element row 2) <> [])
      (filter fila_con_nombre (filas rawData)) ps.
Proof.
  eexists. split; [apply procesarProductos_closed|].
  apply productos_desde_Forall2. intros now row Hk.
  rewrite isValid_nombre by (apply fila_con_nombre_nombre; exact Hk).
  unfold incompleto, producto_de, vacio. cbn [imagen compraMinima].
  destruct (trim (texto (element row 3))), (texto (element row 2));
    simpl; split; try discriminate; try tauto;
    try (intros _; split; discriminate); intros [H1 H2]; congruence.
Qed.

Lemma espacios_length w : espacios w -> 1 <= length w.
Proof. intros [Hne _]. destruct w; [contradiction | simpl; lia]. Qed.

Lemma producto_de_tiene_fechas now row :
  tiene_fechas (producto_de now row) = true ->
  exists pre d1 mid d2 post,
    fechaInicio (producto_de now row) = JString d1 /\
    fechaFin (producto_de now row) = JString d2 /\
    es_fecha d1 = true /\ es_fecha d2 = true /\
    vigenciaCompleta (producto_de now row) =
      pre ++ d1 ++ mid ++ d2 ++ post /\
    28 <= length (vigenciaCompleta (producto_de now row)).
Proof.
  unfold tiene_fechas, producto_de.
  cbn [fechaInicio fechaFin vigenciaCompleta].
  destruct (fechas_de_cases (texto (element row 1)))
    as [(d1 & d2 & (pre & t & Hv & Ht & _) & Hd1 & Hd2 & ->) | [_ ->]];
    [|discriminate].
  intros _.
  destruct Ht as (x1 & x2 & x3 & w1 & w2 & y1 & y2 & w3 & resto & -> & _ & _
                  & _ & Hw1 & _ & Hw2 & _ & _ & Hw3 & _).
  exists (pre ++ [x1; x2; x3] ++ w1), d1, (w2 ++ [y1; y2] ++ w3), d2, resto.
  cbn [fst snd]. repeat split; try assumption.
  - rewrite Hv. rewrite <- !app_assoc. reflexivity.
  - rewrite Hv. rewrite !length_app.
    apply es_fecha_length in Hd1, Hd2.
    apply espacios_length in Hw1, Hw2, Hw3. simpl. lia.
Qed.

(** X13.  When a product carries dates, both are of the shape DD/MM/YYYY
    and appear in that order inside its validity text, which is then at
    least 28 code units long; so the products with dates are among those
    the statistics count as having a validity. *)
Theorem fechas_en_vigencia clock rawData :
  exists ps,
    procesarProductos clock rawData = Ok ps /\
    Forall
      (fun p =>
         tiene_fechas p = true ->
         exists pre d1 mid d2 post,
           fechaInicio p = JString d1 /\ fechaFin p = JString d2 /\
           es_fecha d1 = true /\ es_fecha d2 = true /\
           vigenciaCompleta p = pre ++ d1 ++ mid ++ d2 ++ post /\
           28 <= length (vigenciaCompleta p))
      ps /\
    contar tiene_fechas ps <= conVigencia (stats ps).
Proof.
  eexists. split; [apply procesarProductos_closed|]. split.
  - apply Forall_forall. intros p Hp.
    apply productos_desde_In in Hp as (now & row & _ & _ & ->).
    apply producto_de_tiene_fechas.
  - unfold stats. cbn [conVigencia]. rewrite length_filter_contar.
    apply contar_le. intros p Hp Hf.
    apply productos_desde_In in Hp as (now & row & _ & _ & ->).
    destruct (producto_de_tiene_fechas _ _ Hf)
      as (pre & d1 & mid & d2 & post & _ & _ & _ & _ & _ & Hlen).
    destruct (vigenciaCompleta (producto_de now row));
      [simpl in Hlen; lia | reflexivity].
Qed.

(** ** Lookup and listing together *)

Lemma productos_desde_id clock rows i p :
  In p (productos_desde clock i rows) -> exists s, id p = generateProductId s.
Proof.
  intros Hp. apply productos_desde_In in Hp as (now & row & _ & _ & ->).
  eexists. reflexivity.
Qed.


(** X15.  A requested identifier that the generator cannot produce -- one
    with a code unit outside [a-z], [0-9] and the hyphen (an upper-case
    letter, say), longer than 50 code units, or with two hyphens in a row --
    is answered "not found" whatever the sheet holds. *)
Theorem lookup_malformed clock values id_ :
  (exists c, In c id_ /\ slug_char c = false) \/
  50 < length id_ \/
  par_en "-" "-" id_ ->
  getProductoPorId clock values id_ = Status404.
Proof.
  intros Hbad. rewrite getProductoPorId_closed.
  rewrite find_absent; [reflexivity|].
  intros q Hq. apply str_eqb_neq. intros Heq.
  destruct (productos_desde_id _ _ _ _ Hq) as [s Hs].
  rewrite Hs in Heq. subst id_.
  destruct Hbad as [(c & Hc & Hsl) | [Hlen | Hpar]].
  - pose proof (generateProductId_slug s) as H.
    rewrite Forall_forall in H. rewrite (H c Hc) in Hsl. discriminate.
  - pose proof (generateProductId_length s). lia.
  - rewrite generateProductId_closed in Hpar. apply tiene_par_spec in Hpar.
    rewrite generateId_spec_guiones in Hpar. discriminate Hpar.
Qed.

(** X15 on the sheet of Scenario A, asked for "Widget-A". *)
Lemma lookup_malformed_witness :
  getProductoPorId (fun _ => str "t") tabla_A (str "Widget-A") = Status404.
Proof.
  apply (@lookup_malformed (fun _ => str "t") tabla_A (str "Widget-A")).
  left. exists "W"%char. split; [left; reflexivity | reflexivity].
Defined.
